(** * SimpleLang: the recursive-descent parser of [parser.cpp]

    A shallow embedding of the token model ([token.h]), the AST node model
    ([expr.h]) and the parser ([parser.cpp]), followed by the properties of
    the parser that the specification states. *)

From Stdlib Require Import List String ZArith Lia Bool Arith.
Import ListNotations.

Local Open Scope string_scope.
Local Open Scope list_scope.

(** ** token.h *)

(** [enum TokenType].  The enumerators are those that can be read in the
    header; [True] is used by [parser.cpp] ([TokenType::True]) and sits in a
    damaged line of the header.  The enumerators are reached as
    [TokenType.Plus], as the source writes [TokenType::Plus]. *)
Module TokenType.

Inductive t : Set :=
  | LeftParen | RightParen | LeftBrace | RightBrace
  | Comma | Dot | Minus | Plus | Semicolon | Slash | Star
  | Bang | BangEqual
  | Equal | EqualEqual
  | Greater | GreaterEqual
  | Less | LessEqual
  | Identifier | String | Number
  | And | Break | Class | Continue | Do | Else | ElseIf
  | False | Fun | For | If | In | Let | Nil | Or
  | Print | Return | Super | Static | Struct | Switch
  | True
  | Eof | Unknown.

(** The integer value of an enumerator, in the order of the header ([True]
    counted before [Eof]): an unscoped C++ enum compares as its underlying
    integer. *)
Definition tag (k : t) : nat :=
  match k with
  | LeftParen => 0 | RightParen => 1 | LeftBrace => 2 | RightBrace => 3
  | Comma => 4 | Dot => 5 | Minus => 6 | Plus => 7 | Semicolon => 8
  | Slash => 9 | Star => 10
  | Bang => 11 | BangEqual => 12
  | Equal => 13 | EqualEqual => 14
  | Greater => 15 | GreaterEqual => 16
  | Less => 17 | LessEqual => 18
  | Identifier => 19 | String => 20 | Number => 21
  | And => 22 | Break => 23 | Class => 24 | Continue => 25 | Do => 26
  | Else => 27 | ElseIf => 28
  | False => 29 | Fun => 30 | For => 31 | If => 32 | In => 33 | Let => 34
  | Nil => 35 | Or => 36
  | Print => 37 | Return => 38 | Super => 39 | Static => 40 | Struct => 41
  | Switch => 42
  | True => 43
  | Eof => 44 | Unknown => 45
  end.

(** [a == b] on token types. *)
Definition eqb (a b : t) : bool := Nat.eqb (tag a) (tag b).

End TokenType.

(** [std::any] as the parser meets it: the payload of a token's [literal]
    and of a [LiteralExpr].  The parser copies it and never looks inside. *)
Inductive any : Set :=
  | any_nullptr
  | any_bool (b : bool)
  | any_number (n : Z)
  | any_string (s : string).

(** [struct Token]. *)
Record Token : Set := mkToken {
  type : TokenType.t;
  lexeme : string;
  literal : any
}.

(** ** expr.h *)

#[local] Set Warnings "-register-all".

Inductive Expr : Set :=
  | LiteralExpr (value : any)
  | UnaryExpr (op : Token) (right : Expr)
  | BinaryExpr (left : Expr) (op : Token) (right : Expr)
  | VariableExpr (name : Token).

(** [IfStmt] has two constructors: without an else branch
    ([other_stmt_given] false, [otherwise] null) and with one. *)
Inductive Stmt : Set :=
  | VarStmt (name : Token) (initializer : option Expr)
  | ExpressionStmt (expression : Expr)
  | PrintStmt (expression : Expr)
  | IfStmt (cond : Expr) (then_ : Stmt) (otherwise : option Stmt)
  | BlockStmt (stmts : list Stmt).

(** ** The parser monad

    A member function of [Parser] reads the token vector and reads and
    writes [current].  It returns a value, throws [std::runtime_error], or
    indexes the vector outside its bounds.  The cursor is part of what an
    outcome leaves behind: an exception does not undo [current++]. *)

Inductive outcome (A : Type) : Type :=
  | Ok (a : A)
  | Throw (what : string)
  | OutOfRange
  | OutOfFuel.

Arguments Ok {A} a.
Arguments Throw {A} what.
Arguments OutOfRange {A}.
Arguments OutOfFuel {A}.

Definition M (A : Type) : Type := nat -> outcome A * nat.

Definition ret {A} (a : A) : M A := fun cur => (Ok a, cur).

Definition bind {A B} (m : M A) (k : A -> M B) : M B :=
  fun cur =>
    match m cur with
    | (Ok a, cur') => k a cur'
    | (Throw w, cur') => (Throw w, cur')
    | (OutOfRange, cur') => (OutOfRange, cur')
    | (OutOfFuel, cur') => (OutOfFuel, cur')
    end.

Definition throw {A} (what : string) : M A := fun cur => (Throw what, cur).
Definition out_of_fuel {A} : M A := fun cur => (OutOfFuel, cur).
Definition get_current : M nat := fun cur => (Ok cur, cur).
Definition incr_current : M unit := fun cur => (Ok tt, S cur).

Declare Scope parser_scope.
Delimit Scope parser_scope with parser.
Notation "x <- m ;; k" := (bind m (fun x => k))
  (at level 61, m at next level, right associativity) : parser_scope.
Notation "m ;;; k" := (bind m (fun _ => k))
  (at level 61, right associativity) : parser_scope.
Local Open Scope parser_scope.

(** ** parser.cpp *)

Section Parser.

(** Modelled from the spec: [parser.h], which declares [class Parser], is not
    among the sources.  Its members, as [parser.cpp] uses them, are the token
    vector [tokens], never written, and the position index [current], which
    starts at the first token. *)
Variable tokens : list Token.

Definition initial_current : nat := 0.

(** [tokens[i]]: the element, or an access outside the vector. *)
Definition index (i : nat) : M Token :=
  fun cur =>
    match nth_error tokens i with
    | Some t => (Ok t, cur)
    | None => (OutOfRange, cur)
    end.

Definition peek : M Token :=
  cur <- get_current ;; index cur.

(** [current >= tokens.size() || peek().type == TokenType::Eof]; the right
    operand is evaluated only when the left one is false. *)
Definition atEnd : M bool :=
  cur <- get_current ;;
  if (List.length tokens <=? cur)%nat then ret true
  else t <- peek ;; ret (TokenType.eqb (type t) TokenType.Eof).

(** [tokens[current - 1]]: with [current] zero the unsigned subtraction wraps
    to the largest index, which no vector has. *)
Definition previous : M Token :=
  cur <- get_current ;;
  match cur with
  | O => fun c => (OutOfRange, c)
  | S i => index i
  end.

Definition advance : M Token :=
  e <- atEnd ;;
  (if negb e then incr_current else ret tt) ;;;
  previous.

(** [!atEnd() && peek().type == type]. *)
Definition check (k : TokenType.t) : M bool :=
  e <- atEnd ;;
  if negb e then t <- peek ;; ret (TokenType.eqb (type t) k)
  else ret false.

Definition match_ (k : TokenType.t) : M bool :=
  cur <- get_current ;;
  if (cur <? List.length tokens)%nat then
    c <- check k ;;
    if c then advance ;;; ret true else ret false
  else ret false.

Definition consume (k : TokenType.t) (err : string) : M unit :=
  b <- match_ k ;;
  if negb b then throw err else ret tt.

(** [match(a) || match(b)]: the second call happens only when the first
    returns false. *)
Definition orelse (a b : M bool) : M bool :=
  x <- a ;; if x then ret true else b.

(** The grammar procedures.  Each is recursive through the others, and the
    [while] loops are recursive on their own: [fuel] bounds the depth of
    calls and loop iterations, and a procedure that runs out of it returns
    [OutOfFuel]. *)
#[local] Set Warnings "-non-full-mutual".

Fixpoint statement (fuel : nat) : M Stmt :=
  match fuel with
  | O => out_of_fuel
  | S fuel =>
    b <- match_ TokenType.Print ;;
    if b then printStatement fuel else
    b <- match_ TokenType.If ;;
    if b then IfStatement fuel else
    b <- match_ TokenType.LeftBrace ;;
    if b then blockStmt fuel else
    expressionStatement fuel
  end

with blockStmt (fuel : nat) : M Stmt :=
  match fuel with
  | O => out_of_fuel
  | S fuel =>
    statements <- blockStmt_loop fuel [] ;;
    consume TokenType.RightBrace "Expect '}' after block." ;;;
    ret (BlockStmt statements)
  end

with blockStmt_loop (fuel : nat) (statements : list Stmt) : M (list Stmt) :=
  match fuel with
  | O => out_of_fuel
  | S fuel =>
    c <- check TokenType.RightBrace ;;
    if negb c then
      s <- statement fuel ;;
      blockStmt_loop fuel (statements ++ [s])
    else ret statements
  end

with printStatement (fuel : nat) : M Stmt :=
  match fuel with
  | O => out_of_fuel
  | S fuel =>
    value <- expr fuel ;;
    consume TokenType.Semicolon "Expect ';' after value.'" ;;;
    ret (PrintStmt value)
  end

with IfStatement (fuel : nat) : M Stmt :=
  match fuel with
  | O => out_of_fuel
  | S fuel =>
    cond <- expr fuel ;;
    then_ <- statement fuel ;;
    b <- match_ TokenType.Else ;;
    if b then
      otherwise <- statement fuel ;;
      ret (IfStmt cond then_ (Some otherwise))
    else ret (IfStmt cond then_ None)
  end

with expressionStatement (fuel : nat) : M Stmt :=
  match fuel with
  | O => out_of_fuel
  | S fuel =>
    expression <- expr fuel ;;
    consume TokenType.Semicolon "Expect ';' afer expression" ;;;
    ret (ExpressionStmt expression)
  end

with expr (fuel : nat) : M Expr :=
  match fuel with
  | O => out_of_fuel
  | S fuel => equality fuel
  end

with equality (fuel : nat) : M Expr :=
  match fuel with
  | O => out_of_fuel
  | S fuel =>
    left <- comparison fuel ;;
    equality_loop fuel left
  end

with equality_loop (fuel : nat) (left : Expr) : M Expr :=
  match fuel with
  | O => out_of_fuel
  | S fuel =>
    b <- orelse (match_ TokenType.BangEqual) (match_ TokenType.EqualEqual) ;;
    if b then
      op <- previous ;;
      right <- comparison fuel ;;
      equality_loop fuel (BinaryExpr left op right)
    else ret left
  end

with comparison (fuel : nat) : M Expr :=
  match fuel with
  | O => out_of_fuel
  | S fuel =>
    left <- term fuel ;;
    comparison_loop fuel left
  end

with comparison_loop (fuel : nat) (left : Expr) : M Expr :=
  match fuel with
  | O => out_of_fuel
  | S fuel =>
    b <- orelse (match_ TokenType.Greater)
           (orelse (match_ TokenType.GreaterEqual)
              (orelse (match_ TokenType.Less) (match_ TokenType.LessEqual))) ;;
    if b then
      op <- previous ;;
      right <- term fuel ;;
      comparison_loop fuel (BinaryExpr left op right)
    else ret left
  end

with term (fuel : nat) : M Expr :=
  match fuel with
  | O => out_of_fuel
  | S fuel =>
    left <- factor fuel ;;
    term_loop fuel left
  end

with term_loop (fuel : nat) (left : Expr) : M Expr :=
  match fuel with
  | O => out_of_fuel
  | S fuel =>
    b <- orelse (match_ TokenType.Plus) (match_ TokenType.Minus) ;;
    if b then
      op <- previous ;;
      right <- factor fuel ;;
      term_loop fuel (BinaryExpr left op right)
    else ret left
  end

with factor (fuel : nat) : M Expr :=
  match fuel with
  | O => out_of_fuel
  | S fuel =>
    left <- unary fuel ;;
    factor_loop fuel left
  end

with factor_loop (fuel : nat) (left : Expr) : M Expr :=
  match fuel with
  | O => out_of_fuel
  | S fuel =>
    b <- orelse (match_ TokenType.Star) (match_ TokenType.Slash) ;;
    if b then
      op <- previous ;;
      right <- unary fuel ;;
      factor_loop fuel (BinaryExpr left op right)
    else ret left
  end

with unary (fuel : nat) : M Expr :=
  match fuel with
  | O => out_of_fuel
  | S fuel =>
    b <- orelse (match_ TokenType.Plus) (match_ TokenType.Minus) ;;
    if b then
      op <- previous ;;
      e <- unary fuel ;;
      ret (UnaryExpr op e)
    else
    b <- match_ TokenType.LeftParen ;;
    if b then
      exp <- expr fuel ;;
      consume TokenType.RightParen "Expected ')'" ;;;
      ret exp
    else primary fuel
  end

with primary (fuel : nat) : M Expr :=
  match fuel with
  | O => out_of_fuel
  | S fuel =>
    b <- match_ TokenType.False ;;
    if b then ret (LiteralExpr (any_bool false)) else
    b <- match_ TokenType.True ;;
    if b then ret (LiteralExpr (any_bool true)) else
    b <- orelse (match_ TokenType.Number) (match_ TokenType.String) ;;
    if b then
      t <- previous ;;
      ret (LiteralExpr (literal t))
    else
    b <- match_ TokenType.LeftParen ;;
    if b then
      exp <- expr fuel ;;
      match_ TokenType.RightParen ;;;
      ret exp
    else
      t <- peek ;;
      throw ("Parsing Error - Unexpected token: " ++ lexeme t)%string
  end.

(** The loop of [Parser::parse]. *)
Fixpoint parse_loop (fuel : nat) (statements : list Stmt) : M (list Stmt) :=
  match fuel with
  | O => out_of_fuel
  | S fuel =>
    e <- atEnd ;;
    if negb e then
      s <- statement fuel ;;
      parse_loop fuel (statements ++ [s])
    else ret statements
  end.

(** [Parser::parse] on a fresh parser, with the cursor it leaves. *)
Definition parse_run (fuel : nat) : outcome (list Stmt) * nat :=
  parse_loop fuel [] initial_current.

(** Fuel that is enough for every token sequence ([parse_fuel_enough]). *)
Definition enough_fuel : nat := 16 * List.length tokens + 16.

Definition parse : outcome (list Stmt) := fst (parse_run enough_fuel).

End Parser.

Arguments initial_current : simpl never.

(** ** Definitions for the properties *)

(** The token at the cursor is there, is not [Eof] and has kind [k]. *)
Definition checkb (tokens : list Token) (k : TokenType.t) (cur : nat) : bool :=
  match nth_error tokens cur with
  | Some t => negb (TokenType.eqb (type t) TokenType.Eof)
              && TokenType.eqb (type t) k
  | None => false
  end.

(** The cursor is past the vector or on an [Eof] token. *)
Definition atEndb (tokens : list Token) (cur : nat) : bool :=
  match nth_error tokens cur with
  | Some t => TokenType.eqb (type t) TokenType.Eof
  | None => true
  end.

(** [m'] does what [m] does wherever [m] does not run out of fuel. *)
Definition stable {A} (m m' : M A) : Prop :=
  forall cur, fst (m cur) <> OutOfFuel -> m' cur = m cur.

(** Every grammar procedure with fuel [f'] does what it does with fuel
    [f]. *)
Definition all_stable (tokens : list Token) (f f' : nat) : Prop :=
  (stable (statement tokens f) (statement tokens f') /\
   stable (blockStmt tokens f) (blockStmt tokens f') /\
   (forall l, stable (blockStmt_loop tokens f l) (blockStmt_loop tokens f' l)) /\
   stable (printStatement tokens f) (printStatement tokens f') /\
   stable (IfStatement tokens f) (IfStatement tokens f') /\
   stable (expressionStatement tokens f) (expressionStatement tokens f')) /\
  (stable (expr tokens f) (expr tokens f') /\
   stable (equality tokens f) (equality tokens f') /\
   (forall l, stable (equality_loop tokens f l) (equality_loop tokens f' l)) /\
   stable (comparison tokens f) (comparison tokens f') /\
   (forall l, stable (comparison_loop tokens f l)
                (comparison_loop tokens f' l)) /\
   stable (term tokens f) (term tokens f')) /\
  ((forall l, stable (term_loop tokens f l) (term_loop tokens f' l)) /\
   stable (factor tokens f) (factor tokens f') /\
   (forall l, stable (factor_loop tokens f l) (factor_loop tokens f' l)) /\
   stable (unary tokens f) (unary tokens f') /\
   stable (primary tokens f) (primary tokens f')).

(** Depth of open brackets after [l], starting from depth [d]; [None] when a
    closing bracket has nothing to close. *)
Fixpoint scan (opening closing : TokenType.t) (d : nat) (l : list Token)
  : option nat :=
  match l with
  | [] => Some d
  | t :: l' =>
    if TokenType.eqb (type t) opening then scan opening closing (S d) l'
    else if TokenType.eqb (type t) closing then
      match d with
      | O => None
      | S d' => scan opening closing d' l'
      end
    else scan opening closing d l'
  end.

(** Whether [l] closes the bracket that is open at depth [d] above it before
    an [Eof] token. *)
Fixpoint closes (opening closing : TokenType.t) (d : nat) (l : list Token)
  : bool :=
  match l with
  | [] => false
  | t :: l' =>
    if TokenType.eqb (type t) TokenType.Eof then false
    else if TokenType.eqb (type t) opening then closes opening closing (S d) l'
    else if TokenType.eqb (type t) closing then
      match d with
      | O => true
      | S d' => closes opening closing d' l'
      end
    else closes opening closing d l'
  end.

(** Braces and parentheses are both matched inside [l]. *)
Definition neutral (l : list Token) : Prop :=
  forall d,
    scan TokenType.LeftBrace TokenType.RightBrace d l = Some d /\
    scan TokenType.LeftParen TokenType.RightParen d l = Some d.

(** The kinds of token that some call of [match] in the parser names. *)
Definition consumable (k : TokenType.t) : bool :=
  match k with
  | TokenType.Print | TokenType.If | TokenType.Else
  | TokenType.LeftBrace | TokenType.RightBrace
  | TokenType.LeftParen | TokenType.RightParen
  | TokenType.Semicolon
  | TokenType.BangEqual | TokenType.EqualEqual
  | TokenType.Greater | TokenType.GreaterEqual
  | TokenType.Less | TokenType.LessEqual
  | TokenType.Plus | TokenType.Minus | TokenType.Star | TokenType.Slash
  | TokenType.False | TokenType.True | TokenType.Number | TokenType.String
      => true
  | _ => false
  end.

Definition bracket (k : TokenType.t) : bool :=
  match k with
  | TokenType.LeftBrace | TokenType.RightBrace
  | TokenType.LeftParen | TokenType.RightParen => true
  | _ => false
  end.

Definition plain (k : TokenType.t) : bool := consumable k && negb (bracket k).

(** No [VariableExpr] inside an expression, no [VarStmt] and no
    [VariableExpr] inside a statement. *)
Fixpoint expr_var_free (e : Expr) : bool :=
  match e with
  | LiteralExpr _ => true
  | UnaryExpr _ r => expr_var_free r
  | BinaryExpr l _ r => expr_var_free l && expr_var_free r
  | VariableExpr _ => false
  end.

Fixpoint stmt_var_free (s : Stmt) : bool :=
  match s with
  | VarStmt _ _ => false
  | ExpressionStmt e => expr_var_free e
  | PrintStmt e => expr_var_free e
  | IfStmt c t o =>
    expr_var_free c && stmt_var_free t &&
    match o with
    | Some s' => stmt_var_free s'
    | None => true
    end
  | BlockStmt l => forallb stmt_var_free l
  end.

(** The tokens at positions [p], ..., [q - 1]. *)
Definition seg (tokens : list Token) (p q : nat) : list Token :=
  firstn (q - p) (skipn p tokens).

(** One of the kinds [ks] is matched at the cursor. *)
Definition any_of (tokens : list Token) (ks : list TokenType.t) (cur : nat)
  : bool :=
  existsb (fun k => checkb tokens k cur) ks.

(** *** The invariant of the grammar procedures *)

Section Invariant.

Variable tokens : list Token.

(** A position the cursor cannot pass: nothing the parser looks for is
    matched there. *)
Variable L : nat.

(** The cursor went from [p] to [q], below the limit, over matched
    brackets. *)
Definition span (p q : nat) : Prop :=
  p <= q /\ q <= L /\ neutral (seg tokens p q).

(** What an outcome may be: a result that satisfies [Q], an exception, or an
    access outside the vector when no token stops the cursor before the
    end. *)
Definition good {A} (Q : A -> nat -> Prop) (r : outcome A * nat) : Prop :=
  match r with
  | (Ok a, q) => Q a q
  | (Throw _, _) => True
  | (OutOfRange, _) => L = List.length tokens
  | (OutOfFuel, _) => False
  end.

(** An expression procedure started at [p]: it consumed a token, over
    matched brackets, and built no variable node. *)
Definition Qe (p : nat) (e : Expr) (q : nat) : Prop :=
  p < q /\ span p q /\ expr_var_free e = true.

(** The loop of a binary level, entered at [p] with [left]. *)
Definition Qel (left : Expr) (p : nat) (e : Expr) (q : nat) : Prop :=
  span p q /\ (expr_var_free left = true -> expr_var_free e = true).

(** A statement procedure started at [p]. *)
Definition Qs (p : nat) (s : Stmt) (q : nat) : Prop :=
  p < q /\ span p q /\ stmt_var_free s = true.

(** [blockStmt], started after the opening brace: the statements of the
    block end at [q'], where the closing brace is. *)
Definition Qb (p : nat) (s : Stmt) (q : nat) : Prop :=
  exists q', q = S q' /\ span p q' /\
             any_of tokens [TokenType.RightBrace] q' = true /\
             stmt_var_free s = true.

(** The loop of [blockStmt], entered at [p] with the statements [acc]. *)
Definition Qbl (acc : list Stmt) (p : nat) (l : list Stmt) (q : nat) : Prop :=
  span p q /\
  (forallb stmt_var_free acc = true -> forallb stmt_var_free l = true).

(** The loop of [parse]: it stops where [atEnd] holds. *)
Definition Qpl (acc : list Stmt) (p : nat) (l : list Stmt) (q : nat) : Prop :=
  span p q /\ atEndb tokens q = true /\
  (forallb stmt_var_free acc = true -> forallb stmt_var_free l = true).

(** The cursor is below the limit and the fuel covers what is left. *)
Definition fits (c f p : nat) : Prop := p <= L /\ 16 * (L - p) + c <= f.

(** The invariant at one amount of fuel. *)
Record specs (f : nat) : Prop := {
  sp_statement : forall p, fits 9 f p -> good (Qs p) (statement tokens f p);
  sp_blockStmt : forall p, fits 11 f p -> good (Qb p) (blockStmt tokens f p);
  sp_blockStmt_loop : forall acc p, fits 10 f p ->
    good (Qbl acc p) (blockStmt_loop tokens f acc p);
  sp_printStatement : forall p, fits 8 f p ->
    good (Qs p) (printStatement tokens f p);
  sp_IfStatement : forall p, fits 8 f p ->
    good (Qs p) (IfStatement tokens f p);
  sp_expressionStatement : forall p, fits 8 f p ->
    good (Qs p) (expressionStatement tokens f p);
  sp_expr : forall p, fits 7 f p -> good (Qe p) (expr tokens f p);
  sp_equality : forall p, fits 6 f p -> good (Qe p) (equality tokens f p);
  sp_equality_loop : forall l p, fits 1 f p ->
    good (Qel l p) (equality_loop tokens f l p);
  sp_comparison : forall p, fits 5 f p ->
    good (Qe p) (comparison tokens f p);
  sp_comparison_loop : forall l p, fits 1 f p ->
    good (Qel l p) (comparison_loop tokens f l p);
  sp_term : forall p, fits 4 f p -> good (Qe p) (term tokens f p);
  sp_term_loop : forall l p, fits 1 f p ->
    good (Qel l p) (term_loop tokens f l p);
  sp_factor : forall p, fits 3 f p -> good (Qe p) (factor tokens f p);
  sp_factor_loop : forall l p, fits 1 f p ->
    good (Qel l p) (factor_loop tokens f l p);
  sp_unary : forall p, fits 2 f p -> good (Qe p) (unary tokens f p);
  sp_primary : forall p, fits 1 f p ->
    any_of tokens [TokenType.LeftParen] p = false ->
    good (Qe p) (primary tokens f p)
}.

End Invariant.

(** *** Unterminated brackets, runs, examples, calls of primitives *)

(** An opening bracket before the first [Eof] whose closing bracket does not
    come before that [Eof]. *)
Definition unterminated (opening closing : TokenType.t) (tokens : list Token)
  : Prop :=
  exists pre t post,
    tokens = pre ++ t :: post /\
    type t = opening /\
    Forall (fun x => type x <> TokenType.Eof) pre /\
    In TokenType.Eof (map type post) /\
    closes opening closing 0 post = false.

(** A procedure returns [a] and leaves the cursor at [q], with some fuel. *)
Definition returns {A} (m : nat -> M A) (p : nat) (a : A) (q : nat) : Prop :=
  exists f, m f p = (Ok a, q).

(** A token without literal, and a Number token. *)
Definition tok (k : TokenType.t) (lex : string) : Token :=
  mkToken k lex any_nullptr.

Definition number (lex : string) (n : Z) : Token :=
  mkToken TokenType.Number lex (any_number n).

(** The precedence level of a binary operator: the procedure that matches
    it, [equality] (1), [comparison] (2), [term] (3) or [factor] (4). *)
Definition binary_level (k : TokenType.t) : option nat :=
  match k with
  | TokenType.BangEqual | TokenType.EqualEqual => Some 1
  | TokenType.Greater | TokenType.GreaterEqual
  | TokenType.Less | TokenType.LessEqual => Some 2
  | TokenType.Plus | TokenType.Minus => Some 3
  | TokenType.Star | TokenType.Slash => Some 4
  | _ => None
  end.

(** The tokens of [if true if false print 1; else print 2;] and [Eof]. *)
Definition nested_if : list Token :=
  [tok TokenType.If "if"; tok TokenType.True "true";
   tok TokenType.If "if"; tok TokenType.False "false";
   tok TokenType.Print "print"; number "1" 1; tok TokenType.Semicolon ";";
   tok TokenType.Else "else";
   tok TokenType.Print "print"; number "2" 2; tok TokenType.Semicolon ";";
   tok TokenType.Eof ""].

(** A call of one of the primitives of the parser. *)
Inductive primitive : Set :=
  | call_atEnd
  | call_peek
  | call_advance
  | call_previous
  | call_consume (k : TokenType.t) (err : string)
  | call_check (k : TokenType.t)
  | call_match (k : TokenType.t).

(** The cursor that the call leaves, whatever its outcome. *)
Definition cursor_after (tokens : list Token) (c : primitive) (cur : nat)
  : nat :=
  match c with
  | call_atEnd => snd (atEnd tokens cur)
  | call_peek => snd (peek tokens cur)
  | call_advance => snd (advance tokens cur)
  | call_previous => snd (previous tokens cur)
  | call_consume k err => snd (consume tokens k err cur)
  | call_check k => snd (check tokens k cur)
  | call_match k => snd (match_ tokens k cur)
  end.

(** The cursor after a sequence of calls. *)
Definition cursor_after_all (tokens : list Token) (cs : list primitive)
    (cur : nat) : nat :=
  fold_left (fun c call => cursor_after tokens call c) cs cur.

(** *** Definitions for the further properties *)

(** The tokens before the first [Eof] token: the part of the sequence that
    [parse] reads. *)
Fixpoint before_eof (tokens : list Token) : list Token :=
  match tokens with
  | [] => []
  | t :: l =>
    if TokenType.eqb (type t) TokenType.Eof then [] else t :: before_eof l
  end.

(** A relation between the grammar procedures on [t] with fuel [f] and on
    [t'] with fuel [f'], one by one. *)
Definition all_related (R : forall A, M A -> M A -> Prop)
    (t : list Token) (f : nat) (t' : list Token) (f' : nat) : Prop :=
  (R _ (statement t f) (statement t' f') /\
   R _ (blockStmt t f) (blockStmt t' f') /\
   (forall l, R _ (blockStmt_loop t f l) (blockStmt_loop t' f' l)) /\
   R _ (printStatement t f) (printStatement t' f') /\
   R _ (IfStatement t f) (IfStatement t' f') /\
   R _ (expressionStatement t f) (expressionStatement t' f')) /\
  (R _ (expr t f) (expr t' f') /\
   R _ (equality t f) (equality t' f') /\
   (forall l, R _ (equality_loop t f l) (equality_loop t' f' l)) /\
   R _ (comparison t f) (comparison t' f') /\
   (forall l, R _ (comparison_loop t f l) (comparison_loop t' f' l)) /\
   R _ (term t f) (term t' f')) /\
  ((forall l, R _ (term_loop t f l) (term_loop t' f' l)) /\
   R _ (factor t f) (factor t' f') /\
   (forall l, R _ (factor_loop t f l) (factor_loop t' f' l)) /\
   R _ (unary t f) (unary t' f') /\
   R _ (primary t f) (primary t' f')).

(** [m] never leaves the cursor before where it found it, whatever its
    outcome. *)
Definition mono {A} (m : M A) : Prop := forall p, p <= snd (m p).

(** Started at or before [L], [m'] does what [m] does, and the cursor stays
    at or before [L]. *)
Definition agree (L : nat) {A} (m m' : M A) : Prop :=
  forall p, p <= L -> m' p = m p /\ snd (m p) <= L.

(** The statements that [statement] returns one after the other from [p],
    until [stop] holds at the cursor. *)
Inductive statements_from (tokens : list Token) (stop : nat -> bool)
  : nat -> list Stmt -> nat -> Prop :=
  | sf_stop (p : nat) :
      stop p = true -> statements_from tokens stop p [] p
  | sf_next (p q r : nat) (s : Stmt) (l : list Stmt) :
      stop p = false ->
      returns (statement tokens) p s q ->
      statements_from tokens stop q l r ->
      statements_from tokens stop p (s :: l) r.

(** What [primary] makes of a literal token: [true] and [false] carry their
    own value, a number or a string carries the token's [literal]. *)
Definition literal_value (t : Token) : option any :=
  match type t with
  | TokenType.False => Some (any_bool false)
  | TokenType.True => Some (any_bool true)
  | TokenType.Number | TokenType.String => Some (literal t)
  | _ => None
  end.

(** The kinds of token that a statement can start with: those that
    [statement], [unary] and [primary] look for before anything is
    consumed. *)
Definition starts_statement (k : TokenType.t) : bool :=
  match k with
  | TokenType.Print | TokenType.If | TokenType.LeftBrace
  | TokenType.Plus | TokenType.Minus | TokenType.LeftParen
  | TokenType.False | TokenType.True | TokenType.Number | TokenType.String
      => true
  | _ => false
  end.

(** ** Token types: equality *)

Lemma TokenType_eqb_eq (a b : TokenType.t) :
  TokenType.eqb a b = true <-> a = b.
Proof.
  unfold TokenType.eqb. rewrite Nat.eqb_eq. split.
  - destruct a; destruct b; simpl; intros H; try reflexivity; discriminate H.
  - intros ->. reflexivity.
Qed.

Lemma TokenType_eqb_refl (a : TokenType.t) : TokenType.eqb a a = true.
Proof. apply TokenType_eqb_eq. reflexivity. Qed.

Lemma TokenType_eqb_neq (a b : TokenType.t) :
  TokenType.eqb a b = false <-> a <> b.
Proof.
  rewrite <- TokenType_eqb_eq. destruct (TokenType.eqb a b); split; congruence.
Qed.

(** ** The primitives in closed form *)

Section Primitives.

Variable tokens : list Token.

Lemma nth_error_inside (cur : nat) :
  (List.length tokens <=? cur)%nat = false ->
  exists t, nth_error tokens cur = Some t.
Proof.
  intros H. apply Nat.leb_gt in H.
  destruct (nth_error tokens cur) eqn:E; [eauto|].
  apply nth_error_None in E. lia.
Qed.

Lemma nth_error_outside (cur : nat) :
  (List.length tokens <=? cur)%nat = true -> nth_error tokens cur = None.
Proof. intros H. apply Nat.leb_le in H. now apply nth_error_None. Qed.

Lemma peek_eq (cur : nat) :
  peek tokens cur =
  match nth_error tokens cur with
  | Some t => (Ok t, cur)
  | None => (OutOfRange, cur)
  end.
Proof. reflexivity. Qed.

Lemma atEnd_eq (cur : nat) : atEnd tokens cur = (Ok (atEndb tokens cur), cur).
Proof.
  unfold atEnd, atEndb, peek, index, bind, get_current, ret.
  destruct (List.length tokens <=? cur)%nat eqn:E.
  - now rewrite (nth_error_outside _ E).
  - destruct (nth_error_inside _ E) as [t ->]. reflexivity.
Qed.

Lemma check_eq (k : TokenType.t) (cur : nat) :
  check tokens k cur = (Ok (checkb tokens k cur), cur).
Proof.
  unfold check, bind. rewrite atEnd_eq.
  unfold atEndb, checkb, peek, index, bind, get_current, ret.
  destruct (nth_error tokens cur) as [t|] eqn:E; [|reflexivity].
  destruct (TokenType.eqb (type t) TokenType.Eof); simpl; [reflexivity|].
  now rewrite E.
Qed.

Lemma checkb_inside (k : TokenType.t) (cur : nat) :
  checkb tokens k cur = true -> cur < List.length tokens.
Proof.
  unfold checkb. destruct (nth_error tokens cur) eqn:E; [|discriminate].
  intros _. apply nth_error_Some. congruence.
Qed.

Lemma checkb_true (k : TokenType.t) (cur : nat) :
  checkb tokens k cur = true ->
  exists t, nth_error tokens cur = Some t /\ type t = k
            /\ k <> TokenType.Eof.
Proof.
  unfold checkb. destruct (nth_error tokens cur) as [t|]; [|discriminate].
  intros H. apply andb_true_iff in H. destruct H as [H1 H2].
  apply TokenType_eqb_eq in H2. apply negb_true_iff in H1.
  apply TokenType_eqb_neq in H1. exists t. subst k. auto.
Qed.

Lemma advance_eq (cur : nat) :
  atEndb tokens cur = false ->
  advance tokens cur =
  match nth_error tokens cur with
  | Some t => (Ok t, S cur)
  | None => (OutOfRange, S cur)
  end.
Proof.
  intros H. unfold advance, bind. rewrite atEnd_eq, H. reflexivity.
Qed.

Lemma checkb_not_atEnd (k : TokenType.t) (cur : nat) :
  checkb tokens k cur = true -> atEndb tokens cur = false.
Proof.
  unfold checkb, atEndb. destruct (nth_error tokens cur); [|discriminate].
  intros H. apply andb_true_iff in H. now apply negb_true_iff.
Qed.

Lemma match__eq (k : TokenType.t) (cur : nat) :
  match_ tokens k cur =
  (Ok (checkb tokens k cur), if checkb tokens k cur then S cur else cur).
Proof.
  unfold match_, bind, get_current.
  destruct (cur <? List.length tokens)%nat eqn:E.
  - rewrite check_eq. destruct (checkb tokens k cur) eqn:C; [|reflexivity].
    rewrite (advance_eq _ (checkb_not_atEnd _ _ C)).
    destruct (checkb_true _ _ C) as (t & -> & _). reflexivity.
  - apply Nat.ltb_ge in E.
    destruct (checkb tokens k cur) eqn:C; [|reflexivity].
    apply checkb_inside in C. lia.
Qed.

Lemma consume_eq (k : TokenType.t) (err : string) (cur : nat) :
  consume tokens k err cur =
  if checkb tokens k cur then (Ok tt, S cur) else (Throw err, cur).
Proof.
  unfold consume, bind. rewrite match__eq.
  destruct (checkb tokens k cur); reflexivity.
Qed.

Lemma previous_S (cur : nat) :
  previous tokens (S cur) =
  match nth_error tokens cur with
  | Some t => (Ok t, S cur)
  | None => (OutOfRange, S cur)
  end.
Proof. reflexivity. Qed.

Lemma orelse_match (a b : TokenType.t) (cur : nat) :
  orelse (match_ tokens a) (match_ tokens b) cur =
  (Ok (checkb tokens a cur || checkb tokens b cur),
   if checkb tokens a cur || checkb tokens b cur then S cur else cur).
Proof.
  unfold orelse, bind. rewrite match__eq.
  destruct (checkb tokens a cur); [reflexivity|]. simpl. apply match__eq.
Qed.

End Primitives.

(** ** More fuel does not change a result *)

Lemma stable_refl {A} (m : M A) : stable m m.
Proof. intros cur _. reflexivity. Qed.

Lemma stable_out_of_fuel {A} (m' : M A) : stable out_of_fuel m'.
Proof. intros cur H. now elim H. Qed.

Lemma stable_bind {A B} (m m' : M A) (k k' : A -> M B) :
  stable m m' -> (forall a, stable (k a) (k' a)) ->
  stable (bind m k) (bind m' k').
Proof.
  intros Hm Hk cur H. unfold bind in *.
  destruct (m cur) as [[a| | |] c] eqn:E; simpl in H;
    try (rewrite Hm; rewrite E; [reflexivity|simpl; discriminate]).
  - rewrite Hm; rewrite E; [|simpl; discriminate]. now apply Hk.
  - now elim H.
Qed.

Lemma stable_if {A} (b : bool) (m1 m1' m2 m2' : M A) :
  stable m1 m1' -> stable m2 m2' ->
  stable (if b then m1 else m2) (if b then m1' else m2').
Proof. now destruct b. Qed.

Section Fuel.

Variable tokens : list Token.

Ltac stable_step :=
  first
    [ apply stable_out_of_fuel
    | assumption
    | match goal with H : forall l, stable _ _ |- _ => apply H end
    | apply stable_refl
    | apply stable_if
    | apply stable_bind; [|intros ?] ].

Lemma fuel_stable (f : nat) : forall f', f <= f' -> all_stable tokens f f'.
Proof.
  induction f as [|f IH]; intros f' Hle.
  - unfold all_stable; simpl; repeat split; intros; apply stable_out_of_fuel.
  - destruct f' as [|f']; [lia|].
    assert (H : all_stable tokens f f') by (apply IH; lia).
    destruct H as
      ((H1 & H2 & H3 & H4 & H5 & H6) & (H7 & H8 & H9 & H10 & H11 & H12)
       & (H13 & H14 & H15 & H16 & H17)).
    unfold all_stable; simpl; repeat split; intros; repeat stable_step.
Qed.

End Fuel.

(** ** Brackets and segments of the token sequence *)

Lemma scan_app (o c : TokenType.t) (a b : list Token) : forall d,
  scan o c d (a ++ b) =
  match scan o c d a with
  | Some d' => scan o c d' b
  | None => None
  end.
Proof.
  induction a as [|t a IH]; intros d; simpl; [reflexivity|].
  destruct (TokenType.eqb (type t) o); [apply IH|].
  destruct (TokenType.eqb (type t) c); [|apply IH].
  destruct d; [reflexivity|apply IH].
Qed.

Lemma neutral_nil : neutral [].
Proof. intros d. split; reflexivity. Qed.

Lemma neutral_app (a b : list Token) :
  neutral a -> neutral b -> neutral (a ++ b).
Proof.
  intros Ha Hb d. rewrite !scan_app.
  destruct (Ha d) as [-> ->]. apply Hb.
Qed.

Lemma neutral_one (t : Token) : bracket (type t) = false -> neutral [t].
Proof.
  intros H d. simpl. destruct (type t); simpl in *; try discriminate H;
    split; reflexivity.
Qed.

Lemma neutral_wrap (o c : Token) (l : list Token) :
  (type o = TokenType.LeftBrace /\ type c = TokenType.RightBrace) \/
  (type o = TokenType.LeftParen /\ type c = TokenType.RightParen) ->
  neutral l -> neutral (o :: l ++ [c]).
Proof.
  intros [[Ho Hc]|[Ho Hc]] Hl d; simpl; rewrite Ho; simpl;
    rewrite !scan_app; destruct (Hl d) as [H1 H2];
    destruct (Hl (S d)) as [H3 H4];
    rewrite ?H1, ?H2, ?H3, ?H4; simpl; rewrite Hc; simpl; split; reflexivity.
Qed.

(** A bracket followed by a prefix that brings the depth back below where it
    started has found its closing bracket. *)
Lemma scan_closes (o c : TokenType.t) (b rest : list Token) :
  Forall (fun t => type t <> TokenType.Eof) b ->
  forall n m d, scan o c n b = Some m -> m + d < n ->
  closes o c d (b ++ rest) = true.
Proof.
  induction 1 as [|t b Ht Hb IH]; intros n m d Hs Hlt; simpl in *.
  - injection Hs as <-. lia.
  - apply TokenType_eqb_neq in Ht. rewrite Ht.
    destruct (TokenType.eqb (type t) o).
    + apply (IH (S n) m); [assumption|lia].
    + destruct (TokenType.eqb (type t) c).
      * destruct n as [|n]; [discriminate|].
        destruct d as [|d]; [reflexivity|].
        apply (IH n m); [assumption|lia].
      * apply (IH n m); [assumption|lia].
Qed.

Lemma firstn_plus {A} (a b : nat) : forall l : list A,
  firstn (a + b) l = firstn a l ++ firstn b (skipn a l).
Proof.
  induction a as [|a IH]; intros l; simpl; [reflexivity|].
  destruct l as [|x l]; simpl.
  - now rewrite firstn_nil.
  - now rewrite IH.
Qed.

Section Segments.

Variable tokens : list Token.

Local Abbreviation seg := (seg tokens).
Local Abbreviation any_of := (any_of tokens).

Lemma seg_nil (p : nat) : seg p p = [].
Proof. unfold seg. now rewrite Nat.sub_diag. Qed.

Lemma seg_app (p q r : nat) :
  p <= q -> q <= r -> seg p r = seg p q ++ seg q r.
Proof.
  intros H1 H2. unfold seg.
  replace (r - p) with ((q - p) + (r - q)) by lia.
  rewrite firstn_plus, skipn_skipn.
  now replace (q - p + p) with q by lia.
Qed.

Lemma seg_one (p : nat) (t : Token) :
  nth_error tokens p = Some t -> seg p (S p) = [t].
Proof.
  intros H. unfold seg. replace (S p - p) with 1 by lia.
  revert p H. induction tokens as [|x l IH]; intros [|p] H; simpl in *;
    try discriminate.
  - now injection H as ->.
  - now apply IH.
Qed.

Lemma seg_from_start (q : nat) : seg 0 q = firstn q tokens.
Proof. unfold seg. now rewrite Nat.sub_0_r. Qed.

Lemma any_of_true (ks : list TokenType.t) (cur : nat) :
  any_of ks cur = true ->
  exists t, nth_error tokens cur = Some t /\ In (type t) ks
            /\ type t <> TokenType.Eof.
Proof.
  intros H. apply existsb_exists in H. destruct H as (k & Hin & Hk).
  destruct (checkb_true _ _ _ Hk) as (t & Ht & <- & Hne). eauto.
Qed.

Lemma match__any (k : TokenType.t) (cur : nat) :
  match_ tokens k cur =
  (Ok (any_of [k] cur), if any_of [k] cur then S cur else cur).
Proof.
  rewrite match__eq. unfold any_of. simpl. now rewrite orb_false_r.
Qed.

Lemma orelse_any (k : TokenType.t) (m : M bool) (ks : list TokenType.t)
    (cur : nat) :
  m cur = (Ok (any_of ks cur), if any_of ks cur then S cur else cur) ->
  orelse (match_ tokens k) m cur =
  (Ok (any_of (k :: ks) cur), if any_of (k :: ks) cur then S cur else cur).
Proof.
  intros H. unfold orelse, bind. rewrite match__eq. unfold any_of in *.
  simpl. destruct (checkb tokens k cur); [reflexivity|]. simpl. exact H.
Qed.

Lemma orelse2_any (a b : TokenType.t) (cur : nat) :
  orelse (match_ tokens a) (match_ tokens b) cur =
  (Ok (any_of [a; b] cur), if any_of [a; b] cur then S cur else cur).
Proof. apply orelse_any, match__any. Qed.

Lemma orelse4_any (a b c d : TokenType.t) (cur : nat) :
  orelse (match_ tokens a)
    (orelse (match_ tokens b) (orelse (match_ tokens c) (match_ tokens d)))
    cur =
  (Ok (any_of [a; b; c; d] cur),
   if any_of [a; b; c; d] cur then S cur else cur).
Proof. repeat apply orelse_any. apply match__any. Qed.

Lemma consume_any (k : TokenType.t) (err : string) (cur : nat) :
  consume tokens k err cur =
  if any_of [k] cur then (Ok tt, S cur) else (Throw err, cur).
Proof.
  rewrite consume_eq. unfold any_of. simpl. now rewrite orb_false_r.
Qed.

Lemma check_any (k : TokenType.t) (cur : nat) :
  check tokens k cur = (Ok (any_of [k] cur), cur).
Proof.
  rewrite check_eq. unfold any_of. simpl. now rewrite orb_false_r.
Qed.

End Segments.

(** ** The invariant of the grammar procedures *)

Section Limit.

Variable tokens : list Token.

Variable L : nat.
Hypothesis HL : L <= List.length tokens.
Hypothesis Hstop : forall k, consumable k = true -> checkb tokens k L = false.

Local Abbreviation span := (span tokens L).
Local Abbreviation good := (good tokens L).
Local Abbreviation Qe := (Qe tokens L).
Local Abbreviation Qel := (Qel tokens L).
Local Abbreviation Qs := (Qs tokens L).
Local Abbreviation Qb := (Qb tokens L).
Local Abbreviation Qbl := (Qbl tokens L).
Local Abbreviation Qpl := (Qpl tokens L).
Local Abbreviation fits := (fits L).
Local Abbreviation specs := (specs tokens L).
Local Abbreviation sp_statement := (sp_statement tokens L).
Local Abbreviation sp_blockStmt := (sp_blockStmt tokens L).
Local Abbreviation sp_blockStmt_loop := (sp_blockStmt_loop tokens L).
Local Abbreviation sp_printStatement := (sp_printStatement tokens L).
Local Abbreviation sp_IfStatement := (sp_IfStatement tokens L).
Local Abbreviation sp_expressionStatement :=
  (sp_expressionStatement tokens L).
Local Abbreviation sp_expr := (sp_expr tokens L).
Local Abbreviation sp_equality := (sp_equality tokens L).
Local Abbreviation sp_equality_loop := (sp_equality_loop tokens L).
Local Abbreviation sp_comparison := (sp_comparison tokens L).
Local Abbreviation sp_comparison_loop := (sp_comparison_loop tokens L).
Local Abbreviation sp_term := (sp_term tokens L).
Local Abbreviation sp_term_loop := (sp_term_loop tokens L).
Local Abbreviation sp_factor := (sp_factor tokens L).
Local Abbreviation sp_factor_loop := (sp_factor_loop tokens L).
Local Abbreviation sp_unary := (sp_unary tokens L).
Local Abbreviation sp_primary := (sp_primary tokens L).

Lemma span_refl (p : nat) : p <= L -> span p p.
Proof.
  intros H. repeat split; try lia; rewrite seg_nil; apply neutral_nil.
Qed.

Lemma span_trans (p q r : nat) : span p q -> span q r -> span p r.
Proof.
  intros (H1 & H2 & H3) (H4 & H5 & H6). repeat split; try lia;
    rewrite (seg_app tokens p q r) by lia; now apply neutral_app.
Qed.

Lemma any_of_stop (ks : list TokenType.t) :
  forallb consumable ks = true -> any_of tokens ks L = false.
Proof.
  intros H. unfold any_of. induction ks as [|k ks IH]; simpl in *.
  - reflexivity.
  - apply andb_true_iff in H. destruct H as [H1 H2].
    now rewrite (Hstop k H1), IH.
Qed.

Lemma any_of_below (ks : list TokenType.t) (p : nat) :
  p <= L -> forallb consumable ks = true -> any_of tokens ks p = true ->
  S p <= L.
Proof.
  intros Hp Hc Ha. destruct (Nat.eq_dec p L) as [->|]; [|lia].
  rewrite (any_of_stop ks Hc) in Ha. discriminate.
Qed.

Lemma forallb_plain_consumable (ks : list TokenType.t) :
  forallb plain ks = true -> forallb consumable ks = true.
Proof.
  rewrite !forallb_forall. intros H k Hk. specialize (H k Hk).
  unfold plain in H. now apply andb_true_iff in H.
Qed.

Lemma span_one (ks : list TokenType.t) (p : nat) :
  p <= L -> forallb plain ks = true -> any_of tokens ks p = true ->
  span p (S p).
Proof.
  intros Hp Hk Ha.
  pose proof (any_of_below ks p Hp (forallb_plain_consumable _ Hk) Ha).
  destruct (any_of_true _ _ _ Ha) as (t & Ht & Hin & _).
  repeat split; try lia; rewrite (seg_one _ _ _ Ht); apply neutral_one;
    rewrite forallb_forall in Hk; specialize (Hk _ Hin); unfold plain in Hk;
    apply andb_true_iff in Hk; now apply negb_true_iff.
Qed.

Lemma span_wrap (o c : TokenType.t) (p q : nat) :
  (o = TokenType.LeftBrace /\ c = TokenType.RightBrace) \/
  (o = TokenType.LeftParen /\ c = TokenType.RightParen) ->
  any_of tokens [o] p = true -> span (S p) q ->
  any_of tokens [c] q = true -> span p (S q).
Proof.
  intros Hoc Ho (H1 & H2 & H3) Hc.
  assert (Hcc : forallb consumable [c] = true)
    by (destruct Hoc as [[_ ->]|[_ ->]]; reflexivity).
  pose proof (any_of_below [c] q H2 Hcc Hc).
  destruct (any_of_true _ _ _ Ho) as (to & Hto & [Hino|[]] & _).
  destruct (any_of_true _ _ _ Hc) as (tc & Htc & [Hinc|[]] & _).
  assert (E : seg tokens p (S q) = to :: seg tokens (S p) q ++ [tc]).
  { rewrite (seg_app tokens p (S p) (S q)) by lia.
    rewrite (seg_app tokens (S p) q (S q)) by lia.
    now rewrite (seg_one _ _ _ Hto), (seg_one _ _ _ Htc). }
  repeat split; try lia; rewrite E; apply neutral_wrap; try assumption;
    subst o c; tauto.
Qed.

Lemma good_bind {A B} (Q1 : A -> nat -> Prop) (Q2 : B -> nat -> Prop)
    (m : M A) (k : A -> M B) (p : nat) :
  good Q1 (m p) -> (forall a q, Q1 a q -> good Q2 (k a q)) ->
  good Q2 (bind m k p).
Proof.
  unfold bind. destruct (m p) as [[a| | |] q]; simpl; auto.
Qed.

Lemma good_ret {A} (Q : A -> nat -> Prop) (a : A) (p : nat) :
  Q a p -> good Q (ret a p).
Proof. exact (fun H => H). Qed.

Lemma bind_match_ {B} (k : TokenType.t) (f : bool -> M B) (p : nat) :
  bind (match_ tokens k) f p =
  f (any_of tokens [k] p) (if any_of tokens [k] p then S p else p).
Proof. unfold bind. now rewrite match__any. Qed.

Lemma bind_orelse2 {B} (a b : TokenType.t) (f : bool -> M B) (p : nat) :
  bind (orelse (match_ tokens a) (match_ tokens b)) f p =
  f (any_of tokens [a; b] p) (if any_of tokens [a; b] p then S p else p).
Proof. unfold bind. now rewrite orelse2_any. Qed.

Lemma bind_orelse4 {B} (a b c d : TokenType.t) (f : bool -> M B) (p : nat) :
  bind (orelse (match_ tokens a)
          (orelse (match_ tokens b)
             (orelse (match_ tokens c) (match_ tokens d)))) f p =
  f (any_of tokens [a; b; c; d] p)
    (if any_of tokens [a; b; c; d] p then S p else p).
Proof. unfold bind. now rewrite orelse4_any. Qed.

Lemma bind_consume {B} (k : TokenType.t) (err : string) (f : unit -> M B)
    (p : nat) :
  bind (consume tokens k err) f p =
  if any_of tokens [k] p then f tt (S p) else (Throw err, p).
Proof.
  unfold bind. rewrite consume_any. now destruct (any_of tokens [k] p).
Qed.

Lemma bind_check {B} (k : TokenType.t) (f : bool -> M B) (p : nat) :
  bind (check tokens k) f p = f (any_of tokens [k] p) p.
Proof. unfold bind. now rewrite check_any. Qed.

Lemma bind_atEnd {B} (f : bool -> M B) (p : nat) :
  bind (atEnd tokens) f p = f (atEndb tokens p) p.
Proof. unfold bind. now rewrite atEnd_eq. Qed.

Lemma bind_previous {B} (ks : list TokenType.t) (f : Token -> M B) (p : nat) :
  any_of tokens ks p = true ->
  exists t, bind (previous tokens) f (S p) = f t (S p).
Proof.
  intros H. destruct (any_of_true _ _ _ H) as (t & Ht & _).
  exists t. unfold bind. now rewrite previous_S, Ht.
Qed.

Lemma good_weaken {A} (Q1 Q2 : A -> nat -> Prop) (r : outcome A * nat) :
  good Q1 r -> (forall a q, Q1 a q -> Q2 a q) -> good Q2 r.
Proof. destruct r as [[a| | |] q]; simpl; auto. Qed.

Ltac unfold_proc :=
  cbn [statement blockStmt blockStmt_loop printStatement IfStatement
       expressionStatement expr equality equality_loop comparison
       comparison_loop term term_loop factor factor_loop unary primary].

(** One primitive at the head of the procedure: put its closed form and
    split on what it matched. *)
Ltac prim_step :=
  first [ rewrite bind_match_ | rewrite bind_orelse2 | rewrite bind_orelse4
        | rewrite bind_consume | rewrite bind_check ];
  cbv beta;
  match goal with
  | |- context [any_of tokens ?ks ?p] =>
    let E := fresh "E" in
    destruct (any_of tokens ks p) eqn:E
  end;
  cbv beta iota delta [negb].

Ltac prev_step :=
  match goal with
  | H : any_of tokens ?ks ?p = true
    |- good _ (bind (previous tokens) ?f (S ?p)) =>
    let t := fresh "op" in
    destruct (bind_previous ks f p H) as [t ->]; cbv beta
  end.

(** [S p <= L] from each successful match at [p <= L]. *)
Ltac below :=
  repeat match goal with
  | H : any_of tokens ?ks ?p = true |- _ =>
    lazymatch goal with
    | _ : S p <= L |- _ => fail
    | _ => assert (S p <= L)
             by (apply (any_of_below ks p); [lia|reflexivity|exact H])
    end
  end.

Ltac fits_ok := unfold fits in *; below; lia.

Ltac open_Q :=
  repeat match goal with
  | H : Qe _ _ _ |- _ => destruct H as (? & ? & ?)
  | H : Qs _ _ _ |- _ => destruct H as (? & ? & ?)
  | H : Qel _ _ _ _ |- _ => destruct H as (? & ?)
  | H : Qbl _ _ _ _ |- _ => destruct H as (? & ?)
  | H : Qb _ _ _ |- _ => destruct H as (? & ? & ? & ? & ?)
  | H : span _ _ |- _ =>
    lazymatch type of H with
    | span ?a ?b =>
      lazymatch goal with
      | _ : a <= b, _ : b <= L |- _ => fail
      | _ => assert (a <= b) by apply H; assert (b <= L) by apply H
      end
    end
  end.

(** A call to another procedure, with its invariant from [IH]. *)
Ltac call_step IH :=
  eapply good_bind;
  [ first [ apply (sp_statement _ IH) | apply (sp_blockStmt _ IH)
          | apply (sp_blockStmt_loop _ IH) | apply (sp_printStatement _ IH)
          | apply (sp_IfStatement _ IH) | apply (sp_expressionStatement _ IH)
          | apply (sp_expr _ IH) | apply (sp_equality _ IH)
          | apply (sp_equality_loop _ IH) | apply (sp_comparison _ IH)
          | apply (sp_comparison_loop _ IH) | apply (sp_term _ IH)
          | apply (sp_term_loop _ IH) | apply (sp_factor _ IH)
          | apply (sp_factor_loop _ IH) | apply (sp_unary _ IH) ];
    fits_ok
  | intros ? ? ?; open_Q; cbv beta ].

Ltac tail_step IH :=
  eapply good_weaken;
  [ first [ apply (sp_statement _ IH) | apply (sp_blockStmt _ IH)
          | apply (sp_blockStmt_loop _ IH) | apply (sp_printStatement _ IH)
          | apply (sp_IfStatement _ IH) | apply (sp_expressionStatement _ IH)
          | apply (sp_expr _ IH) | apply (sp_equality _ IH)
          | apply (sp_equality_loop _ IH) | apply (sp_comparison _ IH)
          | apply (sp_comparison_loop _ IH) | apply (sp_term _ IH)
          | apply (sp_term_loop _ IH) | apply (sp_factor _ IH)
          | apply (sp_factor_loop _ IH) | apply (sp_unary _ IH) ];
    fits_ok
  | intros ? ? ?; open_Q ].

(** A token that is no bracket was matched at [p]. *)
Ltac one_span :=
  match goal with
  | H : any_of tokens ?ks ?p = true |- span ?p (S ?p) =>
    apply (span_one ks p); [lia|reflexivity|exact H]
  end.

Ltac spans :=
  first
    [ assumption
    | one_span
    | apply span_refl; lia
    | match goal with
      | H : span ?a ?b |- span ?a ?c =>
        apply (span_trans a b c); [exact H|spans]
      | H : any_of tokens ?ks ?a = true |- span ?a ?c =>
        apply (span_trans a (S a) c);
        [apply (span_one ks a); [lia|reflexivity|exact H]|spans]
      end ].

Lemma primary_step (f : nat) (IH : specs f) (p : nat) :
  fits 1 (S f) p -> any_of tokens [TokenType.LeftParen] p = false ->
  good (Qe p) (primary tokens (S f) p).
Proof.
  intros Hf Hlp. unfold_proc. destruct Hf as [Hp Hf].
  prim_step; [apply good_ret; split; [lia|split; [spans|reflexivity]]|].
  prim_step; [apply good_ret; split; [lia|split; [spans|reflexivity]]|].
  prim_step.
  { prev_step. apply good_ret; split; [lia|split; [spans|reflexivity]]. }
  prim_step; [congruence|].
  unfold bind. rewrite peek_eq. destruct (nth_error tokens p) eqn:Et.
  - exact I.
  - simpl. apply nth_error_None in Et. lia.
Qed.

Lemma unary_step (f : nat) (IH : specs f) (p : nat) :
  fits 2 (S f) p -> good (Qe p) (unary tokens (S f) p).
Proof.
  intros Hf. unfold_proc. destruct Hf as [Hp Hf].
  prim_step.
  { prev_step. call_step IH. apply good_ret. split; [lia|split; [spans|]].
    simpl. assumption. }
  prim_step.
  { call_step IH. prim_step; [|exact I].
    apply good_ret. split; [lia|split; [|assumption]].
    eapply span_wrap; [right; split; reflexivity|eassumption|spans|assumption]. }
  eapply good_weaken; [apply (sp_primary _ IH); [fits_ok|assumption]|].
  intros a q H. exact H.
Qed.

Lemma factor_loop_step (f : nat) (IH : specs f) (l : Expr) (p : nat) :
  fits 1 (S f) p -> good (Qel l p) (factor_loop tokens (S f) l p).
Proof.
  intros Hf. unfold_proc. destruct Hf as [Hp Hf].
  prim_step.
  - prev_step. call_step IH. tail_step IH. split; [spans|].
    intros Hl. simpl in *. rewrite Hl in *. auto.
  - apply good_ret. split; [spans|auto].
Qed.

Lemma factor_step (f : nat) (IH : specs f) (p : nat) :
  fits 3 (S f) p -> good (Qe p) (factor tokens (S f) p).
Proof.
  intros Hf. unfold_proc. destruct Hf as [Hp Hf].
  call_step IH. tail_step IH. split; [lia|split; [spans|auto]].
Qed.

Lemma term_loop_step (f : nat) (IH : specs f) (l : Expr) (p : nat) :
  fits 1 (S f) p -> good (Qel l p) (term_loop tokens (S f) l p).
Proof.
  intros Hf. unfold_proc. destruct Hf as [Hp Hf].
  prim_step.
  - prev_step. call_step IH. tail_step IH. split; [spans|].
    intros Hl. simpl in *. rewrite Hl in *. auto.
  - apply good_ret. split; [spans|auto].
Qed.

Lemma term_step (f : nat) (IH : specs f) (p : nat) :
  fits 4 (S f) p -> good (Qe p) (term tokens (S f) p).
Proof.
  intros Hf. unfold_proc. destruct Hf as [Hp Hf].
  call_step IH. tail_step IH. split; [lia|split; [spans|auto]].
Qed.

Lemma comparison_loop_step (f : nat) (IH : specs f) (l : Expr) (p : nat) :
  fits 1 (S f) p -> good (Qel l p) (comparison_loop tokens (S f) l p).
Proof.
  intros Hf. unfold_proc. destruct Hf as [Hp Hf].
  prim_step.
  - prev_step. call_step IH. tail_step IH. split; [spans|].
    intros Hl. simpl in *. rewrite Hl in *. auto.
  - apply good_ret. split; [spans|auto].
Qed.

Lemma comparison_step (f : nat) (IH : specs f) (p : nat) :
  fits 5 (S f) p -> good (Qe p) (comparison tokens (S f) p).
Proof.
  intros Hf. unfold_proc. destruct Hf as [Hp Hf].
  call_step IH. tail_step IH. split; [lia|split; [spans|auto]].
Qed.

Lemma equality_loop_step (f : nat) (IH : specs f) (l : Expr) (p : nat) :
  fits 1 (S f) p -> good (Qel l p) (equality_loop tokens (S f) l p).
Proof.
  intros Hf. unfold_proc. destruct Hf as [Hp Hf].
  prim_step.
  - prev_step. call_step IH. tail_step IH. split; [spans|].
    intros Hl. simpl in *. rewrite Hl in *. auto.
  - apply good_ret. split; [spans|auto].
Qed.

Lemma equality_step (f : nat) (IH : specs f) (p : nat) :
  fits 6 (S f) p -> good (Qe p) (equality tokens (S f) p).
Proof.
  intros Hf. unfold_proc. destruct Hf as [Hp Hf].
  call_step IH. tail_step IH. split; [lia|split; [spans|auto]].
Qed.

Lemma expr_step (f : nat) (IH : specs f) (p : nat) :
  fits 7 (S f) p -> good (Qe p) (expr tokens (S f) p).
Proof.
  intros Hf. unfold_proc. destruct Hf as [Hp Hf].
  tail_step IH. split; [lia|split; [spans|auto]].
Qed.

Lemma printStatement_step (f : nat) (IH : specs f) (p : nat) :
  fits 8 (S f) p -> good (Qs p) (printStatement tokens (S f) p).
Proof.
  intros Hf. unfold_proc. destruct Hf as [Hp Hf].
  call_step IH. prim_step; [|exact I].
  apply good_ret. split; [lia|split; [spans|auto]].
Qed.

Lemma expressionStatement_step (f : nat) (IH : specs f) (p : nat) :
  fits 8 (S f) p -> good (Qs p) (expressionStatement tokens (S f) p).
Proof.
  intros Hf. unfold_proc. destruct Hf as [Hp Hf].
  call_step IH. prim_step; [|exact I].
  apply good_ret. split; [lia|split; [spans|auto]].
Qed.

Lemma IfStatement_step (f : nat) (IH : specs f) (p : nat) :
  fits 8 (S f) p -> good (Qs p) (IfStatement tokens (S f) p).
Proof.
  intros Hf. unfold_proc. destruct Hf as [Hp Hf].
  call_step IH. call_step IH. prim_step.
  - call_step IH. apply good_ret. split; [lia|split; [spans|]].
    simpl. repeat match goal with H : _ = true |- _ => rewrite H; clear H end.
    reflexivity.
  - apply good_ret. split; [lia|split; [spans|]].
    simpl. repeat match goal with H : _ = true |- _ => rewrite H; clear H end.
    reflexivity.
Qed.

Lemma blockStmt_loop_step (f : nat) (IH : specs f) (acc : list Stmt)
    (p : nat) :
  fits 10 (S f) p -> good (Qbl acc p) (blockStmt_loop tokens (S f) acc p).
Proof.
  intros Hf. unfold_proc. destruct Hf as [Hp Hf].
  prim_step.
  - apply good_ret. split; [spans|auto].
  - call_step IH. tail_step IH. split; [spans|].
    intros Hacc.
    match goal with H : forallb _ (acc ++ _) = true -> _ |- _ => apply H end.
    rewrite forallb_app. simpl. rewrite Hacc.
    match goal with H : stmt_var_free _ = true |- _ => now rewrite H end.
Qed.

Lemma blockStmt_step (f : nat) (IH : specs f) (p : nat) :
  fits 11 (S f) p -> good (Qb p) (blockStmt tokens (S f) p).
Proof.
  intros Hf. unfold_proc. destruct Hf as [Hp Hf].
  call_step IH. prim_step; [|exact I].
  apply good_ret. exists q. repeat split; try apply H; auto.
Qed.

Lemma statement_step (f : nat) (IH : specs f) (p : nat) :
  fits 9 (S f) p -> good (Qs p) (statement tokens (S f) p).
Proof.
  intros Hf. unfold_proc. destruct Hf as [Hp Hf].
  prim_step; [tail_step IH; split; [lia|split; [spans|auto]]|].
  prim_step; [tail_step IH; split; [lia|split; [spans|auto]]|].
  prim_step.
  - tail_step IH. subst q. split; [lia|split; [|assumption]].
    eapply span_wrap; [left; split; reflexivity|eassumption|spans|assumption].
  - tail_step IH. split; [lia|split; [spans|auto]].
Qed.

(** Every procedure keeps the invariant, with any amount of fuel. *)
Lemma specs_all (f : nat) : specs f.
Proof.
  induction f as [|f IH].
  - constructor; intros; unfold fits in *; lia.
  - constructor; intros.
    + now apply statement_step.
    + now apply blockStmt_step.
    + now apply blockStmt_loop_step.
    + now apply printStatement_step.
    + now apply IfStatement_step.
    + now apply expressionStatement_step.
    + now apply expr_step.
    + now apply equality_step.
    + now apply equality_loop_step.
    + now apply comparison_step.
    + now apply comparison_loop_step.
    + now apply term_step.
    + now apply term_loop_step.
    + now apply factor_step.
    + now apply factor_loop_step.
    + now apply unary_step.
    + now apply primary_step.
Qed.

Lemma parse_loop_good (f : nat) : forall acc p,
  fits 10 f p -> good (Qpl acc p) (parse_loop tokens f acc p).
Proof.
  induction f as [|f IHf]; intros acc p Hf.
  - unfold fits in Hf. lia.
  - destruct Hf as [Hp Hf]. cbn [parse_loop]. rewrite bind_atEnd.
    destruct (atEndb tokens p) eqn:E; cbv beta iota delta [negb].
    + apply good_ret. split; [spans|auto].
    + pose proof (specs_all f) as IH. call_step IH.
      eapply good_weaken; [apply IHf; fits_ok|].
      intros l q' (Hs & He & Hv). split; [spans|split; [assumption|]].
      intros Hacc. apply Hv. rewrite forallb_app. simpl.
      match goal with H : stmt_var_free _ = true |- _ => rewrite H end.
      now rewrite Hacc.
Qed.

Lemma parse_run_good :
  good (Qpl [] initial_current) (parse_run tokens (enough_fuel tokens)).
Proof.
  apply parse_loop_good. unfold fits, enough_fuel, initial_current. lia.
Qed.

End Limit.

(** ** [parse] as a whole *)

Section Parse.

Variable tokens : list Token.

Lemma checkb_outside (k : TokenType.t) :
  checkb tokens k (List.length tokens) = false.
Proof.
  unfold checkb.
  now rewrite (proj2 (nth_error_None tokens (List.length tokens))).
Qed.

(** [parse] never runs out of the fuel it is given. *)
Lemma parse_terminates : parse tokens <> OutOfFuel.
Proof.
  pose proof (parse_run_good tokens (List.length tokens) (le_n _)
                (fun k _ => checkb_outside k)) as H.
  unfold parse. destruct (parse_run tokens (enough_fuel tokens))
    as [[l| | |] q]; simpl in *; try discriminate. contradiction.
Qed.

Lemma parse_loop_stable (f : nat) : forall f' acc,
  f <= f' -> stable (parse_loop tokens f acc) (parse_loop tokens f' acc).
Proof.
  induction f as [|f IH]; intros f' acc Hle.
  - apply stable_out_of_fuel.
  - destruct f' as [|f']; [lia|]. simpl.
    apply stable_bind; [apply stable_refl|intros e].
    apply stable_if; [|apply stable_refl].
    apply stable_bind.
    + apply (fuel_stable tokens f f'). lia.
    + intros s. apply IH. lia.
Qed.

(** With more fuel than [enough_fuel], [parse] does the same. *)
Lemma parse_fuel_enough (f : nat) :
  enough_fuel tokens <= f ->
  parse_run tokens f = parse_run tokens (enough_fuel tokens).
Proof.
  intros Hle. apply (parse_loop_stable _ _ [] Hle). apply parse_terminates.
Qed.

(** Whatever [parse] returns has no variable node. *)
Lemma parse_var_free (l : list Stmt) :
  parse tokens = Ok l -> forallb stmt_var_free l = true.
Proof.
  pose proof (parse_run_good tokens (List.length tokens) (le_n _)
                (fun k _ => checkb_outside k)) as H.
  unfold parse. destruct (parse_run tokens (enough_fuel tokens))
    as [[l'| | |] q]; simpl in *; try discriminate.
  intros [= ->]. now apply H.
Qed.

End Parse.

Lemma nth_error_middle {A} (a : list A) (x : A) (b : list A) :
  nth_error (a ++ x :: b) (List.length a) = Some x.
Proof. induction a; simpl; auto. Qed.

(** The token sequence has a token [x] that the parser cannot consume, and
    no [Eof] before it: [parse] returns only when [x] is [Eof], and then the
    tokens before it have matched brackets; otherwise it throws. *)
Lemma parse_stopped (a : list Token) (x : Token) (b : list Token) :
  Forall (fun t => type t <> TokenType.Eof) a ->
  consumable (type x) = false ->
  match parse (a ++ x :: b) with
  | Ok l => type x = TokenType.Eof /\ neutral a
  | Throw _ => True
  | OutOfRange => False
  | OutOfFuel => False
  end.
Proof.
  intros Ha Hx. set (tokens := a ++ x :: b).
  assert (HL : List.length a <= List.length tokens)
    by (unfold tokens; rewrite length_app; simpl; lia).
  assert (Hstop : forall k, consumable k = true ->
                            checkb tokens k (List.length a) = false).
  { intros k Hk. unfold checkb, tokens. rewrite nth_error_middle.
    destruct (TokenType.eqb (type x) k) eqn:E.
    - apply TokenType_eqb_eq in E. congruence.
    - apply andb_false_r. }
  pose proof (parse_run_good tokens (List.length a) HL Hstop) as H.
  unfold parse. destruct (parse_run tokens (enough_fuel tokens))
    as [[l| | |] q]; simpl in *; auto.
  - destruct H as ((_ & Hq & Hn) & He & _).
    assert (q = List.length a) as ->.
    { destruct (Nat.eq_dec q (List.length a)) as [|Hne]; [assumption|].
      exfalso. unfold atEndb, tokens in He.
      rewrite nth_error_app1 in He by lia.
      destruct (nth_error a q) as [t|] eqn:Et.
      - apply nth_error_In in Et. rewrite Forall_forall in Ha.
        apply TokenType_eqb_eq in He. exact (Ha t Et He).
      - apply nth_error_None in Et. lia. }
    split.
    + unfold atEndb, tokens in He. rewrite nth_error_middle in He.
      now apply TokenType_eqb_eq.
    + rewrite seg_from_start in Hn. unfold tokens in Hn.
      rewrite firstn_app, firstn_all, Nat.sub_diag in Hn. simpl in Hn.
      now rewrite app_nil_r in Hn.
  - unfold tokens in H. rewrite length_app in H. simpl in H. lia.
Qed.

Lemma first_eof (l : list Token) :
  In TokenType.Eof (map type l) ->
  exists l1 e l2, l = l1 ++ e :: l2 /\
                  Forall (fun t => type t <> TokenType.Eof) l1 /\
                  type e = TokenType.Eof.
Proof.
  induction l as [|t l IH]; simpl; [intros []|].
  intros H. destruct (TokenType.eqb (type t) TokenType.Eof) eqn:E.
  - apply TokenType_eqb_eq in E. exists [], t, l. auto.
  - apply TokenType_eqb_neq in E. destruct H as [H|H]; [congruence|].
    destruct (IH H) as (l1 & e & l2 & -> & Hl1 & He).
    exists (t :: l1), e, l2. auto.
Qed.

(** A token sequence with an [Eof] token never takes the parser outside the
    vector. *)
Lemma parse_in_range (tokens : list Token) :
  In TokenType.Eof (map type tokens) -> parse tokens <> OutOfRange.
Proof.
  intros H. destruct (first_eof _ H) as (a & e & b & -> & Ha & He).
  pose proof (parse_stopped a e b Ha) as P. rewrite He in P.
  specialize (P eq_refl). intros E. now rewrite E in P.
Qed.

Lemma unterminated_throws (o c : TokenType.t) (tokens : list Token) :
  (o = TokenType.LeftBrace /\ c = TokenType.RightBrace) \/
  (o = TokenType.LeftParen /\ c = TokenType.RightParen) ->
  unterminated o c tokens ->
  exists msg, parse tokens = Throw msg.
Proof.
  intros Hoc (pre & t & post & -> & Ht & Hpre & Heof & Hcl).
  destruct (first_eof _ Heof) as (p1 & e & p2 & -> & Hp1 & He).
  assert (Ho : o <> TokenType.Eof)
    by (destruct Hoc as [[-> _]|[-> _]]; discriminate).
  assert (Ha : Forall (fun x => type x <> TokenType.Eof) (pre ++ t :: p1)).
  { apply Forall_app. split; [assumption|]. constructor; [congruence|auto]. }
  pose proof (parse_stopped (pre ++ t :: p1) e p2 Ha) as P.
  rewrite He in P. specialize (P eq_refl).
  replace ((pre ++ t :: p1) ++ e :: p2) with (pre ++ t :: p1 ++ e :: p2) in P
    by (now rewrite <- app_assoc).
  destruct (parse (pre ++ t :: p1 ++ e :: p2)) as [l|msg| |];
    [|now exists msg|contradiction|contradiction].
  exfalso. destruct P as [_ Hn].
  assert (Hs : scan o c 0 (pre ++ t :: p1) = Some 0)
    by (destruct Hoc as [[-> ->]|[-> ->]]; apply Hn).
  rewrite scan_app in Hs.
  destruct (scan o c 0 pre) as [k|]; [|discriminate].
  simpl in Hs. rewrite Ht, TokenType_eqb_refl in Hs.
  rewrite (scan_closes o c p1 (e :: p2) Hp1 (S k) 0 0 Hs) in Hcl by lia.
  discriminate.
Qed.

(** The result of [parse] for every larger amount of fuel. *)
Lemma parse_any_fuel (tokens : list Token) (f : nat) :
  enough_fuel tokens <= f -> fst (parse_run tokens f) = parse tokens.
Proof. intros H. unfold parse. now rewrite parse_fuel_enough. Qed.

Lemma checkb_other (tokens : list Token) (k k' : TokenType.t) (p : nat) :
  checkb tokens k p = true -> k' <> k -> any_of tokens [k'] p = false.
Proof.
  intros H Hne. destruct (checkb_true _ _ _ H) as (t & Ht & Hk & _).
  unfold any_of, checkb. simpl. rewrite Ht, Hk.
  apply TokenType_eqb_neq in Hne.
  assert (E : TokenType.eqb k k' = false).
  { apply TokenType_eqb_neq. apply not_eq_sym.
    now apply TokenType_eqb_neq. }
  rewrite E. now rewrite andb_false_r.
Qed.

Lemma any_of_one (tokens : list Token) (k : TokenType.t) (p : nat) :
  any_of tokens [k] p = checkb tokens k p.
Proof. unfold any_of. simpl. apply orb_false_r. Qed.

Lemma bind_ok {A B} (m : M A) (k : A -> M B) (p q : nat) (a : A) :
  m p = (Ok a, q) -> bind m k p = k a q.
Proof. intros H. unfold bind. now rewrite H. Qed.

Lemma statement_more_fuel (tokens : list Token) (f f' p q : nat) (s : Stmt) :
  f <= f' -> statement tokens f p = (Ok s, q) ->
  statement tokens f' p = (Ok s, q).
Proof.
  intros Hle H. rewrite <- H.
  apply (proj1 (proj1 (fuel_stable tokens f f' Hle))).
  rewrite H. discriminate.
Qed.

Lemma expr_more_fuel (tokens : list Token) (f f' p q : nat) (e : Expr) :
  f <= f' -> expr tokens f p = (Ok e, q) -> expr tokens f' p = (Ok e, q).
Proof.
  intros Hle H. rewrite <- H.
  apply (proj1 (proj1 (proj2 (fuel_stable tokens f f' Hle)))).
  rewrite H. discriminate.
Qed.

(** ** The cursor across the primitives *)

Lemma snd_index (tokens : list Token) (i cur : nat) :
  snd (index tokens i cur) = cur.
Proof. unfold index. now destruct (nth_error tokens i). Qed.

Lemma snd_previous (tokens : list Token) (cur : nat) :
  snd (previous tokens cur) = cur.
Proof.
  unfold previous, bind, get_current. destruct cur; [reflexivity|].
  apply snd_index.
Qed.

(** A call leaves the cursor where it was, or one position further when the
    cursor was not at the end. *)
Lemma cursor_after_cases (tokens : list Token) (c : primitive) (cur : nat) :
  cursor_after tokens c cur = cur \/
  (cursor_after tokens c cur = S cur /\ atEndb tokens cur = false).
Proof.
  destruct c; simpl.
  - left. now rewrite atEnd_eq.
  - left. apply snd_index.
  - destruct (atEndb tokens cur) eqn:E.
    + left. unfold advance, bind. rewrite atEnd_eq, E. simpl.
      apply (snd_previous tokens cur).
    + right. split; [|reflexivity]. rewrite (advance_eq _ _ E).
      now destruct (nth_error tokens cur).
  - left. apply snd_previous.
  - rewrite consume_eq. destruct (checkb tokens k cur) eqn:E; simpl; auto.
    right. split; [reflexivity|]. now apply (checkb_not_atEnd tokens k).
  - left. now rewrite check_eq.
  - rewrite match__eq. destruct (checkb tokens k cur) eqn:E; simpl; auto.
    right. split; [reflexivity|]. now apply (checkb_not_atEnd tokens k).
Qed.

Lemma atEndb_false (tokens : list Token) (cur : nat) :
  atEndb tokens cur = false ->
  exists t, nth_error tokens cur = Some t /\ type t <> TokenType.Eof.
Proof.
  unfold atEndb. destruct (nth_error tokens cur) as [t|]; [|discriminate].
  intros H. apply TokenType_eqb_neq in H. eauto.
Qed.

Lemma firstn_S_nth {A} (l : list A) (n : nat) (x : A) :
  nth_error l n = Some x -> firstn (S n) l = firstn n l ++ [x].
Proof.
  revert n. induction l as [|y l IH]; intros [|n] H; simpl in *;
    try discriminate.
  - now injection H as ->.
  - now rewrite (IH n H).
Qed.

Lemma cursor_fixed_at_eof (tokens : list Token) (cur : nat) (e : Token) :
  nth_error tokens cur = Some e -> type e = TokenType.Eof ->
  forall cs, cursor_after_all tokens cs cur = cur.
Proof.
  intros He Ht cs. induction cs as [|c cs IH]; [reflexivity|].
  unfold cursor_after_all in *. simpl.
  destruct (cursor_after_cases tokens c cur) as [->|[_ H]]; [exact IH|].
  unfold atEndb in H. rewrite He, Ht in H. discriminate.
Qed.

(** * The properties of the specification *)

(** C1, as stated, fails: the token sequence [1 Eof] has no [;], and
    [expressionStatement] throws where it consumes it, so [parse] returns no
    statement. *)
Lemma C1_number_eof_throws :
  parse [number "1" 1; tok TokenType.Eof ""]
    = Throw "Expect ';' afer expression" /\
  parse [number "1" 1; tok TokenType.Eof ""]
    <> Ok [ExpressionStmt (LiteralExpr (any_number 1))].
Proof. split; [reflexivity|discriminate]. Qed.

(** C1, amended: for every token sequence made of one Number token, a
    Semicolon token and an Eof token, [parse] returns exactly one statement,
    an [ExpressionStmt] whose expression is the [LiteralExpr] that carries
    the Number token's literal value. *)
Theorem C1_number_statement (lex lex1 lex2 : string) (v v1 v2 : any) :
  parse [mkToken TokenType.Number lex v;
         mkToken TokenType.Semicolon lex1 v1;
         mkToken TokenType.Eof lex2 v2]
  = Ok [ExpressionStmt (LiteralExpr v)].
Proof. reflexivity. Qed.

(** C2: on the one-token sequence [print], which has no [Eof], [parse]
    reaches [primary] with the cursor at the size of the vector, where
    [peek().lexeme] for the error message reads [tokens[1]]: an access
    outside the vector. *)
Theorem C2_print_without_eof_out_of_range (lex : string) (v : any) :
  parse [mkToken TokenType.Print lex v] = OutOfRange /\
  parse_run [mkToken TokenType.Print lex v]
            (enough_fuel [mkToken TokenType.Print lex v])
  = (OutOfRange, 1).
Proof. split; reflexivity. Qed.

(** C3: a token sequence with an unterminated block, an opening brace
    before the first [Eof] whose closing brace does not come before that
    [Eof], makes [parse] throw the syntax error, with every amount of fuel
    from [enough_fuel] on: the parser terminates and does not loop. *)
Theorem C3_unterminated_block_throws (tokens : list Token) :
  unterminated TokenType.LeftBrace TokenType.RightBrace tokens ->
  exists msg, forall f,
    enough_fuel tokens <= f -> fst (parse_run tokens f) = Throw msg.
Proof.
  intros H.
  destruct (unterminated_throws _ _ tokens
              (or_introl (conj eq_refl eq_refl)) H) as [msg Hmsg].
  exists msg. intros f Hf. now rewrite parse_any_fuel.
Qed.

Lemma C3_unterminated_block_witness :
  unterminated TokenType.LeftBrace TokenType.RightBrace
    [tok TokenType.LeftBrace "{"; tok TokenType.Print "print";
     number "1" 1; tok TokenType.Semicolon ";"; tok TokenType.Eof ""] /\
  exists msg, forall f,
    enough_fuel
      [tok TokenType.LeftBrace "{"; tok TokenType.Print "print";
       number "1" 1; tok TokenType.Semicolon ";"; tok TokenType.Eof ""] <= f ->
    fst (parse_run
           [tok TokenType.LeftBrace "{"; tok TokenType.Print "print";
            number "1" 1; tok TokenType.Semicolon ";"; tok TokenType.Eof ""] f)
    = Throw msg.
Proof.
  assert (H : unterminated TokenType.LeftBrace TokenType.RightBrace
    [tok TokenType.LeftBrace "{"; tok TokenType.Print "print";
     number "1" 1; tok TokenType.Semicolon ";"; tok TokenType.Eof ""]).
  { exists [], (tok TokenType.LeftBrace "{"),
      [tok TokenType.Print "print"; number "1" 1;
       tok TokenType.Semicolon ";"; tok TokenType.Eof ""].
    repeat split; [constructor|simpl; tauto]. }
  split; [exact H|]. exact (C3_unterminated_block_throws _ H).
Defined.

(** C4: the tokens of [1 - 2 - 3 ;] and [Eof] parse to the left-nested
    [Binary(Binary(1, -, 2), -, 3)]; and so do any two binary operators of
    one precedence level between three literals. *)
Theorem C4_left_associative :
  parse [number "1" 1; tok TokenType.Minus "-"; number "2" 2;
         tok TokenType.Minus "-"; number "3" 3;
         tok TokenType.Semicolon ";"; tok TokenType.Eof ""]
  = Ok [ExpressionStmt
          (BinaryExpr
             (BinaryExpr (LiteralExpr (any_number 1))
                (tok TokenType.Minus "-") (LiteralExpr (any_number 2)))
             (tok TokenType.Minus "-") (LiteralExpr (any_number 3)))] /\
  forall (op1 op2 : Token) (n : nat) (lx ly lz : string) (x y z : any),
    binary_level (type op1) = Some n ->
    binary_level (type op2) = Some n ->
    parse [mkToken TokenType.Number lx x; op1;
           mkToken TokenType.Number ly y; op2;
           mkToken TokenType.Number lz z;
           tok TokenType.Semicolon ";"; tok TokenType.Eof ""]
    = Ok [ExpressionStmt
            (BinaryExpr
               (BinaryExpr (LiteralExpr x) op1 (LiteralExpr y))
               op2 (LiteralExpr z))].
Proof.
  split; [reflexivity|].
  intros [k1 l1 v1] [k2 l2 v2] n lx ly lz x y z H1 H2.
  destruct k1; simpl in H1; try discriminate H1;
    injection H1 as <-;
    destruct k2; simpl in H2; try discriminate H2; reflexivity.
Qed.

Lemma C4_left_associative_witness :
  binary_level (type (tok TokenType.Star "*")) = Some 4 /\
  binary_level (type (tok TokenType.Slash "/")) = Some 4 /\
  parse [number "8" 8; tok TokenType.Star "*"; number "4" 4;
         tok TokenType.Slash "/"; number "2" 2;
         tok TokenType.Semicolon ";"; tok TokenType.Eof ""]
  = Ok [ExpressionStmt
          (BinaryExpr
             (BinaryExpr (LiteralExpr (any_number 8))
                (tok TokenType.Star "*") (LiteralExpr (any_number 4)))
             (tok TokenType.Slash "/") (LiteralExpr (any_number 2)))].
Proof.
  split; [reflexivity|split; [reflexivity|]].
  apply (proj2 C4_left_associative _ _ 4); reflexivity.
Defined.

(** C5: the tokens of [1 + 2 * 3 ;] and [Eof] parse to
    [Binary(1, +, Binary(2, *, 3))]; and an operator of a higher precedence
    level after one of a lower level takes the operand between them. *)
Theorem C5_precedence :
  parse [number "1" 1; tok TokenType.Plus "+"; number "2" 2;
         tok TokenType.Star "*"; number "3" 3;
         tok TokenType.Semicolon ";"; tok TokenType.Eof ""]
  = Ok [ExpressionStmt
          (BinaryExpr (LiteralExpr (any_number 1)) (tok TokenType.Plus "+")
             (BinaryExpr (LiteralExpr (any_number 2))
                (tok TokenType.Star "*") (LiteralExpr (any_number 3))))] /\
  forall (op1 op2 : Token) (n1 n2 : nat) (lx ly lz : string) (x y z : any),
    binary_level (type op1) = Some n1 ->
    binary_level (type op2) = Some n2 ->
    n1 < n2 ->
    parse [mkToken TokenType.Number lx x; op1;
           mkToken TokenType.Number ly y; op2;
           mkToken TokenType.Number lz z;
           tok TokenType.Semicolon ";"; tok TokenType.Eof ""]
    = Ok [ExpressionStmt
            (BinaryExpr (LiteralExpr x) op1
               (BinaryExpr (LiteralExpr y) op2 (LiteralExpr z)))].
Proof.
  split; [reflexivity|].
  intros [k1 l1 v1] [k2 l2 v2] n1 n2 lx ly lz x y z H1 H2 Hlt.
  destruct k1; simpl in H1; try discriminate H1;
    injection H1 as <-;
    destruct k2; simpl in H2; try discriminate H2;
    injection H2 as <-; try lia; reflexivity.
Qed.

Lemma C5_precedence_witness :
  binary_level (type (tok TokenType.Less "<")) = Some 2 /\
  binary_level (type (tok TokenType.Minus "-")) = Some 3 /\
  2 < 3 /\
  parse [number "1" 1; tok TokenType.Less "<"; number "5" 5;
         tok TokenType.Minus "-"; number "3" 3;
         tok TokenType.Semicolon ";"; tok TokenType.Eof ""]
  = Ok [ExpressionStmt
          (BinaryExpr (LiteralExpr (any_number 1)) (tok TokenType.Less "<")
             (BinaryExpr (LiteralExpr (any_number 5))
                (tok TokenType.Minus "-") (LiteralExpr (any_number 3))))].
Proof.
  split; [reflexivity|split; [reflexivity|split; [lia|]]].
  apply (proj2 C5_precedence _ _ 2 3); [reflexivity|reflexivity|lia].
Defined.

(** C6: a token sequence with an opening parenthesis before the first [Eof]
    whose closing parenthesis does not come before that [Eof] makes [parse]
    throw the syntax error; no statement sequence is returned. *)
Theorem C6_unterminated_paren_throws (tokens : list Token) :
  unterminated TokenType.LeftParen TokenType.RightParen tokens ->
  (exists msg, parse tokens = Throw msg) /\
  (forall l, parse tokens <> Ok l).
Proof.
  intros H.
  destruct (unterminated_throws _ _ tokens
              (or_intror (conj eq_refl eq_refl)) H) as [msg Hmsg].
  split; [now exists msg|]. intros l. rewrite Hmsg. discriminate.
Qed.

Lemma C6_unterminated_paren_witness :
  unterminated TokenType.LeftParen TokenType.RightParen
    [tok TokenType.LeftParen "("; number "1" 1; tok TokenType.Plus "+";
     number "2" 2; tok TokenType.Eof ""] /\
  (exists msg,
     parse [tok TokenType.LeftParen "("; number "1" 1; tok TokenType.Plus "+";
            number "2" 2; tok TokenType.Eof ""] = Throw msg) /\
  (forall l,
     parse [tok TokenType.LeftParen "("; number "1" 1; tok TokenType.Plus "+";
            number "2" 2; tok TokenType.Eof ""] <> Ok l).
Proof.
  assert (H : unterminated TokenType.LeftParen TokenType.RightParen
    [tok TokenType.LeftParen "("; number "1" 1; tok TokenType.Plus "+";
     number "2" 2; tok TokenType.Eof ""]).
  { exists [], (tok TokenType.LeftParen "("),
      [number "1" 1; tok TokenType.Plus "+"; number "2" 2;
       tok TokenType.Eof ""].
    repeat split; [constructor|simpl; tauto]. }
  split; [exact H|]. exact (C6_unterminated_paren_throws _ H).
Defined.

(** C7: [if c1 if c2 s1 else s2] with nothing but one [else]: where the
    parser reads the condition [c1] after an [if], then a second [if] with
    its condition [c2] and its statement [s1], then [else] and the statement
    [s2], and no further [else] follows, [statement] returns the outer
    [IfStmt] without else branch, whose then branch is the inner [IfStmt]
    that carries [s2] as its else branch. *)
Theorem C7_dangling_else (tokens : list Token) (p p1 p2 p3 p4 : nat)
    (c1 c2 : Expr) (s1 s2 : Stmt) :
  checkb tokens TokenType.If p = true ->
  returns (expr tokens) (S p) c1 p1 ->
  checkb tokens TokenType.If p1 = true ->
  returns (expr tokens) (S p1) c2 p2 ->
  returns (statement tokens) p2 s1 p3 ->
  checkb tokens TokenType.Else p3 = true ->
  returns (statement tokens) (S p3) s2 p4 ->
  checkb tokens TokenType.Else p4 = false ->
  returns (statement tokens) p
    (IfStmt c1 (IfStmt c2 s1 (Some s2)) None) p4.
Proof.
  intros Hif (f1 & E1) Hif1 (f2 & E2) (f3 & E3) Helse (f4 & E4) Hno.
  set (F := f1 + f2 + f3 + f4).
  apply (expr_more_fuel tokens f1 (S (S F))) in E1; [|lia].
  apply (expr_more_fuel tokens f2 F) in E2; [|lia].
  apply (statement_more_fuel tokens f3 F) in E3; [|lia].
  apply (statement_more_fuel tokens f4 F) in E4; [|lia].
  assert (Hinner : statement tokens (S (S F)) p1
                   = (Ok (IfStmt c2 s1 (Some s2)), p4)).
  { cbn [statement IfStatement].
    rewrite bind_match_, (checkb_other tokens _ TokenType.Print _ Hif1)
      by discriminate.
    rewrite bind_match_, any_of_one, Hif1.
    rewrite (bind_ok _ _ _ _ _ E2), (bind_ok _ _ _ _ _ E3).
    rewrite bind_match_, any_of_one, Helse.
    now rewrite (bind_ok _ _ _ _ _ E4). }
  exists (S (S (S (S F)))).
  cbn [statement IfStatement].
  rewrite bind_match_, (checkb_other tokens _ TokenType.Print _ Hif)
    by discriminate.
  rewrite bind_match_, any_of_one, Hif.
  rewrite (bind_ok _ _ _ _ _ E1), (bind_ok _ _ _ _ _ Hinner).
  rewrite bind_match_, any_of_one, Hno. reflexivity.
Qed.

Lemma C7_dangling_else_witness :
  returns (statement nested_if) 0
    (IfStmt (LiteralExpr (any_bool true))
       (IfStmt (LiteralExpr (any_bool false))
          (PrintStmt (LiteralExpr (any_number 1)))
          (Some (PrintStmt (LiteralExpr (any_number 2)))))
       None) 11.
Proof.
  apply (C7_dangling_else nested_if 0 2 4 7 11).
  - reflexivity.
  - exists 20. reflexivity.
  - reflexivity.
  - exists 20. reflexivity.
  - exists 20. reflexivity.
  - reflexivity.
  - exists 20. reflexivity.
  - reflexivity.
Defined.

(** [parse] on the same tokens: one statement, the outer [IfStmt]. *)
Example nested_if_parse :
  parse nested_if
  = Ok [IfStmt (LiteralExpr (any_bool true))
          (IfStmt (LiteralExpr (any_bool false))
             (PrintStmt (LiteralExpr (any_number 1)))
             (Some (PrintStmt (LiteralExpr (any_number 2)))))
          None].
Proof. reflexivity. Qed.

(** C8: a call of a primitive never moves the cursor back; it does not move
    it past the size of the token sequence, nor past an [Eof] token; and
    once the cursor is on an [Eof] token, it stays there through every
    sequence of calls, and [peek] returns that [Eof] token. *)
Theorem C8_cursor_monotone (tokens : list Token) (cur : nat) (c : primitive) :
  cur <= cursor_after tokens c cur /\
  (cur <= List.length tokens ->
   cursor_after tokens c cur <= List.length tokens) /\
  (Forall (fun t => type t <> TokenType.Eof) (firstn cur tokens) ->
   Forall (fun t => type t <> TokenType.Eof)
     (firstn (cursor_after tokens c cur) tokens)) /\
  (forall e, nth_error tokens cur = Some e -> type e = TokenType.Eof ->
   forall cs,
     cursor_after_all tokens cs cur = cur /\
     peek tokens (cursor_after_all tokens cs cur) = (Ok e, cur)).
Proof.
  repeat split.
  - destruct (cursor_after_cases tokens c cur) as [->|[-> _]]; lia.
  - intros H. destruct (cursor_after_cases tokens c cur) as [->|[-> E]];
      [assumption|].
    destruct (atEndb_false _ _ E) as (t & Ht & _).
    apply Nat.le_succ_l. apply nth_error_Some. congruence.
  - intros H. destruct (cursor_after_cases tokens c cur) as [->|[-> E]];
      [assumption|].
    destruct (atEndb_false _ _ E) as (t & Ht & Hne).
    rewrite (firstn_S_nth _ _ _ Ht). apply Forall_app. split; auto.
  - now apply (cursor_fixed_at_eof tokens cur e).
  - rewrite (cursor_fixed_at_eof tokens cur e) by assumption.
    rewrite peek_eq. now rewrite H.
Qed.

Lemma C8_cursor_monotone_witness :
  cursor_after [number "1" 1; tok TokenType.Eof ""]
    (call_match TokenType.Number) 0 <= 2 /\
  Forall (fun t => type t <> TokenType.Eof)
    (firstn (cursor_after [number "1" 1; tok TokenType.Eof ""]
               (call_match TokenType.Number) 0)
       [number "1" 1; tok TokenType.Eof ""]) /\
  cursor_after_all [number "1" 1; tok TokenType.Eof ""]
    [call_advance; call_match TokenType.Eof; call_peek;
     call_consume TokenType.Eof "eof"] 1 = 1 /\
  peek [number "1" 1; tok TokenType.Eof ""]
    (cursor_after_all [number "1" 1; tok TokenType.Eof ""]
       [call_advance; call_match TokenType.Eof; call_peek;
        call_consume TokenType.Eof "eof"] 1)
  = (Ok (tok TokenType.Eof ""), 1).
Proof.
  destruct (C8_cursor_monotone [number "1" 1; tok TokenType.Eof ""] 0
              (call_match TokenType.Number)) as (_ & H2 & H3 & _).
  destruct (C8_cursor_monotone [number "1" 1; tok TokenType.Eof ""] 1
              call_peek) as (_ & _ & _ & H4).
  split; [apply H2; simpl; lia|].
  split; [apply H3; constructor|].
  apply (H4 (tok TokenType.Eof "")); reflexivity.
Defined.


(** C9: in every parser state and for every token kind, [check] returns
    without an exception and leaves the cursor where it was; [match] returns
    what [check] does, moving the cursor one position forward when that is
    true and leaving it where it was when that is false. *)
Theorem C9_check_match (tokens : list Token) (k : TokenType.t) (cur : nat) :
  exists b : bool,
    check tokens k cur = (Ok b, cur) /\
    match_ tokens k cur = (Ok b, if b then S cur else cur).
Proof.
  exists (checkb tokens k cur). split; [apply check_eq|apply match__eq].
Qed.

(** C10: whatever [parse] returns holds no [VarStmt] and no [VariableExpr];
    and a token sequence with a [Let] or [Identifier] token before any [Eof]
    makes [parse] throw the syntax error. *)
Theorem C10_no_variables :
  (forall tokens l, parse tokens = Ok l -> forallb stmt_var_free l = true) /\
  (forall pre t post,
     type t = TokenType.Identifier \/ type t = TokenType.Let ->
     Forall (fun x => type x <> TokenType.Eof) pre ->
     exists msg, parse (pre ++ t :: post) = Throw msg).
Proof.
  split; [exact parse_var_free|].
  intros pre t post Ht Hpre.
  pose proof (parse_stopped pre t post Hpre) as P.
  assert (Hc : consumable (type t) = false)
    by (destruct Ht as [-> | ->]; reflexivity).
  specialize (P Hc).
  destruct (parse (pre ++ t :: post)) as [l|msg| |];
    [|now exists msg|contradiction|contradiction].
  destruct P as [He _]. destruct Ht as [Ht|Ht]; congruence.
Qed.

Lemma C10_no_variables_witness :
  forallb stmt_var_free [ExpressionStmt (LiteralExpr (any_number 1))]
    = true /\
  exists msg,
    parse ([tok TokenType.Print "print"]
             ++ tok TokenType.Identifier "x"
             :: [tok TokenType.Semicolon ";"; tok TokenType.Eof ""])
    = Throw msg.
Proof.
  split.
  - exact (proj1 C10_no_variables
             [number "1" 1; tok TokenType.Semicolon ";"; tok TokenType.Eof ""]
             _ eq_refl).
  - apply (proj2 C10_no_variables).
    + left. reflexivity.
    + repeat constructor. discriminate.
Defined.

(** * Further properties of the parser *)

(** ** The cursor never moves back *)

Lemma mono_bind {A B} (m : M A) (k : A -> M B) :
  mono m -> (forall a, mono (k a)) -> mono (bind m k).
Proof.
  intros Hm Hk p. unfold bind. specialize (Hm p).
  destruct (m p) as [[a| | |] q]; simpl in *; try assumption.
  specialize (Hk a q). lia.
Qed.

Lemma mono_if {A} (b : bool) (m1 m2 : M A) :
  mono m1 -> mono m2 -> mono (if b then m1 else m2).
Proof. now destruct b. Qed.

Lemma mono_ret {A} (a : A) : mono (ret a).
Proof. intros p. simpl. lia. Qed.

Lemma mono_throw {A} (w : string) : mono (@throw A w).
Proof. intros p. simpl. lia. Qed.

Lemma mono_out_of_fuel {A} : mono (@out_of_fuel A).
Proof. intros p. simpl. lia. Qed.

Section Monotone.

Variable tokens : list Token.

Lemma mono_match_ (k : TokenType.t) : mono (match_ tokens k).
Proof.
  intros p. rewrite match__eq. simpl. destruct (checkb tokens k p); lia.
Qed.

Lemma mono_check (k : TokenType.t) : mono (check tokens k).
Proof. intros p. rewrite check_eq. simpl. lia. Qed.

Lemma mono_consume (k : TokenType.t) (err : string) :
  mono (consume tokens k err).
Proof.
  intros p. rewrite consume_eq. destruct (checkb tokens k p); simpl; lia.
Qed.

Lemma mono_previous : mono (previous tokens).
Proof. intros p. rewrite snd_previous. lia. Qed.

Lemma mono_peek : mono (peek tokens).
Proof. intros p. rewrite peek_eq. destruct (nth_error tokens p); simpl; lia. Qed.

Lemma mono_atEnd : mono (atEnd tokens).
Proof. intros p. rewrite atEnd_eq. simpl. lia. Qed.

Ltac mono_step :=
  first
    [ assumption
    | match goal with H : forall l, mono _ |- _ => apply H end
    | apply mono_out_of_fuel | apply mono_ret | apply mono_throw
    | apply mono_match_ | apply mono_check | apply mono_consume
    | apply mono_previous | apply mono_peek | apply mono_atEnd
    | apply mono_if
    | apply mono_bind; [|intros ?] ].

Lemma all_mono (f : nat) :
  all_related (fun A m _ => mono m) tokens f tokens f.
Proof.
  induction f as [|f IH].
  - unfold all_related; simpl; repeat split; intros; apply mono_out_of_fuel.
  - destruct IH as
      ((H1 & H2 & H3 & H4 & H5 & H6) & (H7 & H8 & H9 & H10 & H11 & H12)
       & (H13 & H14 & H15 & H16 & H17)).
    unfold all_related, orelse; simpl; repeat split; intros;
      repeat mono_step.
Qed.

Lemma mono_parse_loop (f : nat) : forall acc, mono (parse_loop tokens f acc).
Proof.
  induction f as [|f IH]; intros acc; simpl; [apply mono_out_of_fuel|].
  apply mono_bind; [apply mono_atEnd|intros e].
  apply mono_if; [|apply mono_ret].
  apply mono_bind; [apply (all_mono f)|intros s; apply IH].
Qed.

End Monotone.

(** ** Two token sequences that are the same up to a stopping token *)

Section Agree.

Variables tokens tokens' : list Token.
Variable L : nat.
Hypothesis Hsame : forall i, i <= L -> nth_error tokens' i = nth_error tokens i.
Hypothesis Hend : atEndb tokens L = true.

Lemma checkb_same (k : TokenType.t) (p : nat) :
  p <= L -> checkb tokens' k p = checkb tokens k p.
Proof. intros H. unfold checkb. now rewrite Hsame. Qed.

Lemma checkb_at_end (k : TokenType.t) : checkb tokens k L = false.
Proof.
  destruct (checkb tokens k L) eqn:E; [|reflexivity].
  apply checkb_not_atEnd in E. congruence.
Qed.

Lemma agree_bind {A B} (m m' : M A) (k k' : A -> M B) :
  agree L m m' -> (forall a, agree L (k a) (k' a)) ->
  agree L (bind m k) (bind m' k').
Proof.
  intros Hm Hk p Hp. destruct (Hm p Hp) as [E Hq]. unfold bind. rewrite E.
  destruct (m p) as [[a| | |] q]; simpl in *; auto.
  now apply Hk.
Qed.

Lemma agree_if {A} (b : bool) (m1 m1' m2 m2' : M A) :
  agree L m1 m1' -> agree L m2 m2' ->
  agree L (if b then m1 else m2) (if b then m1' else m2').
Proof. now destruct b. Qed.

Lemma agree_refl_ret {A} (a : A) : agree L (ret a) (ret a).
Proof. intros p Hp. auto. Qed.

Lemma agree_throw {A} (w : string) : agree L (@throw A w) (throw w).
Proof. intros p Hp. auto. Qed.

Lemma agree_out_of_fuel {A} : agree L (@out_of_fuel A) out_of_fuel.
Proof. intros p Hp. auto. Qed.

Lemma agree_match_ (k : TokenType.t) :
  agree L (match_ tokens k) (match_ tokens' k).
Proof.
  intros p Hp. rewrite !match__eq, (checkb_same k p Hp).
  split; [reflexivity|]. simpl.
  destruct (checkb tokens k p) eqn:E; [|assumption].
  destruct (Nat.eq_dec p L) as [->|]; [|lia].
  rewrite checkb_at_end in E. discriminate.
Qed.

Lemma agree_check (k : TokenType.t) :
  agree L (check tokens k) (check tokens' k).
Proof.
  intros p Hp. rewrite !check_eq, (checkb_same k p Hp). auto.
Qed.

Lemma agree_consume (k : TokenType.t) (err : string) :
  agree L (consume tokens k err) (consume tokens' k err).
Proof.
  intros p Hp. rewrite !consume_eq, (checkb_same k p Hp).
  split; [reflexivity|].
  destruct (checkb tokens k p) eqn:E; simpl; [|assumption].
  destruct (Nat.eq_dec p L) as [->|]; [|lia].
  rewrite checkb_at_end in E. discriminate.
Qed.

Lemma agree_previous : agree L (previous tokens) (previous tokens').
Proof.
  intros p Hp. rewrite snd_previous. split; [|assumption].
  destruct p as [|p]; [reflexivity|].
  rewrite !previous_S. now rewrite Hsame by lia.
Qed.

Lemma agree_peek : agree L (peek tokens) (peek tokens').
Proof.
  intros p Hp. rewrite !peek_eq, Hsame by assumption.
  destruct (nth_error tokens p); auto.
Qed.

Lemma agree_atEnd : agree L (atEnd tokens) (atEnd tokens').
Proof.
  intros p Hp. rewrite !atEnd_eq. unfold atEndb.
  rewrite Hsame by assumption. auto.
Qed.

Ltac agree_step :=
  first
    [ assumption
    | match goal with H : forall l, agree _ _ _ |- _ => apply H end
    | apply agree_out_of_fuel | apply agree_refl_ret | apply agree_throw
    | apply agree_match_ | apply agree_check | apply agree_consume
    | apply agree_previous | apply agree_peek | apply agree_atEnd
    | apply agree_if
    | apply agree_bind; [|intros ?] ].

Lemma all_agree (f : nat) :
  all_related (fun A m m' => agree L m m') tokens f tokens' f.
Proof.
  induction f as [|f IH].
  - unfold all_related; simpl;
      repeat match goal with |- _ /\ _ => split end; intros;
      apply agree_out_of_fuel.
  - destruct IH as
      ((H1 & H2 & H3 & H4 & H5 & H6) & (H7 & H8 & H9 & H10 & H11 & H12)
       & (H13 & H14 & H15 & H16 & H17)).
    unfold all_related, orelse; simpl;
      repeat match goal with |- _ /\ _ => split end; intros;
      repeat agree_step.
Qed.

Lemma agree_parse_loop (f : nat) : forall acc,
  agree L (parse_loop tokens f acc) (parse_loop tokens' f acc).
Proof.
  induction f as [|f IH]; intros acc; simpl; [apply agree_out_of_fuel|].
  apply agree_bind; [apply agree_atEnd|intros e].
  apply agree_if; [|apply agree_refl_ret].
  apply agree_bind; [apply (all_agree f)|intros s; apply IH].
Qed.

End Agree.

(** ** The tokens before the first [Eof] *)

Lemma before_eof_no_eof (tokens : list Token) :
  Forall (fun t => type t <> TokenType.Eof) (before_eof tokens).
Proof.
  induction tokens as [|t l IH]; simpl; [constructor|].
  destruct (TokenType.eqb (type t) TokenType.Eof) eqn:E; constructor.
  - now apply TokenType_eqb_neq.
  - exact IH.
Qed.

Lemma before_eof_split (tokens : list Token) :
  exists rest, tokens = before_eof tokens ++ rest /\
               atEndb rest 0 = true.
Proof.
  induction tokens as [|t l IH]; simpl.
  - exists []. auto.
  - destruct (TokenType.eqb (type t) TokenType.Eof) eqn:E.
    + exists (t :: l). auto.
    + destruct IH as (rest & H1 & H2). exists rest. split; [|assumption].
      simpl. now rewrite <- H1.
Qed.

Lemma atEndb_app (a rest : list Token) :
  atEndb (a ++ rest) (List.length a) = atEndb rest 0.
Proof.
  unfold atEndb. replace (List.length a) with (List.length a + 0) by lia.
  now rewrite nth_error_app2, Nat.add_comm, Nat.add_sub by lia.
Qed.

Lemma atEndb_before_eof (tokens : list Token) :
  atEndb tokens (List.length (before_eof tokens)) = true.
Proof.
  destruct (before_eof_split tokens) as (rest & H1 & H2).
  rewrite H1 at 1. now rewrite atEndb_app.
Qed.

Lemma not_atEndb_before (tokens : list Token) (q : nat) :
  q < List.length (before_eof tokens) -> atEndb tokens q = false.
Proof.
  intros Hq. destruct (before_eof_split tokens) as (rest & H1 & _).
  unfold atEndb. rewrite H1, nth_error_app1 by assumption.
  destruct (nth_error (before_eof tokens) q) as [t|] eqn:E.
  - apply nth_error_In in E. apply TokenType_eqb_neq.
    pose proof (before_eof_no_eof tokens) as F. rewrite Forall_forall in F.
    now apply F.
  - apply nth_error_None in E. lia.
Qed.

Lemma firstn_before_eof (tokens : list Token) :
  firstn (List.length (before_eof tokens)) tokens = before_eof tokens.
Proof.
  destruct (before_eof_split tokens) as (rest & H1 & _).
  rewrite H1 at 2. rewrite firstn_app, firstn_all, Nat.sub_diag. simpl.
  apply app_nil_r.
Qed.

Lemma before_eof_length (tokens : list Token) :
  List.length (before_eof tokens) <= List.length tokens.
Proof.
  destruct (before_eof_split tokens) as (rest & H1 & _).
  rewrite H1 at 2. rewrite length_app. lia.
Qed.

Lemma checkb_at_atEnd (tokens : list Token) (k : TokenType.t) (p : nat) :
  atEndb tokens p = true -> checkb tokens k p = false.
Proof.
  intros H. destruct (checkb tokens k p) eqn:E; [|reflexivity].
  apply checkb_not_atEnd in E. congruence.
Qed.

(** The run of [parse] when it returns: the cursor is on the first [Eof], or
    at the end when there is none, and the tokens before have matched
    brackets. *)
Lemma parse_run_ok (tokens : list Token) (l : list Stmt) (q : nat) :
  parse_run tokens (enough_fuel tokens) = (Ok l, q) ->
  q = List.length (before_eof tokens) /\ neutral (before_eof tokens).
Proof.
  intros E.
  pose proof (parse_run_good tokens (List.length (before_eof tokens))
                (before_eof_length tokens)
                (fun k _ => checkb_at_atEnd tokens k _
                              (atEndb_before_eof tokens))) as H.
  rewrite E in H. simpl in H. destruct H as ((_ & Hq & Hn) & He & _).
  assert (q = List.length (before_eof tokens)) as ->.
  { destruct (Nat.eq_dec q (List.length (before_eof tokens))); [assumption|].
    rewrite not_atEndb_before in He by lia. discriminate. }
  split; [reflexivity|].
  now rewrite seg_from_start, firstn_before_eof in Hn.
Qed.

(** ** Results with some fuel and with enough fuel *)

Lemma stable_result {A} (m m' : M A) (p : nat) (r : outcome A * nat) :
  stable m m' -> m p = r -> fst r <> OutOfFuel -> m' p = r.
Proof. intros H <- Hr. now apply H. Qed.

Lemma parse_run_some_fuel (tokens : list Token) (f : nat)
    (r : outcome (list Stmt) * nat) :
  parse_run tokens f = r -> fst r <> OutOfFuel ->
  parse_run tokens (enough_fuel tokens) = r.
Proof.
  intros E Hr. destruct (Nat.le_gt_cases f (enough_fuel tokens)) as [H|H].
  - apply (stable_result _ _ _ _ (parse_loop_stable tokens f _ [] H) E Hr).
  - rewrite <- E. symmetry. apply parse_fuel_enough. lia.
Qed.

Lemma blockStmt_loop_more_fuel (tokens : list Token) (f f' p q : nat)
    (acc l : list Stmt) :
  f <= f' -> blockStmt_loop tokens f acc p = (Ok l, q) ->
  blockStmt_loop tokens f' acc p = (Ok l, q).
Proof.
  intros Hle H.
  apply (stable_result _ _ _ _
           (proj1 (proj2 (proj2 (proj1 (fuel_stable tokens f f' Hle)))) acc) H).
  discriminate.
Qed.

Lemma parse_loop_more_fuel (tokens : list Token) (f f' p q : nat)
    (acc l : list Stmt) :
  f <= f' -> parse_loop tokens f acc p = (Ok l, q) ->
  parse_loop tokens f' acc p = (Ok l, q).
Proof.
  intros Hle H.
  apply (stable_result _ _ _ _ (parse_loop_stable tokens f f' acc Hle) H).
  discriminate.
Qed.

Lemma statements_from_stop (tokens : list Token) (stop : nat -> bool)
    (p r : nat) (l : list Stmt) :
  statements_from tokens stop p l r -> stop r = true.
Proof. induction 1; assumption. Qed.

Lemma parse_loop_runs (tokens : list Token) (p r : nat) (l : list Stmt) :
  statements_from tokens (atEndb tokens) p l r ->
  forall acc, exists f, parse_loop tokens f acc p = (Ok (acc ++ l), r).
Proof.
  induction 1 as [p Hp|p q r s l Hp (f1 & Hs) _ IH]; intros acc.
  - exists 1. simpl. rewrite bind_atEnd, Hp. simpl. now rewrite app_nil_r.
  - destruct (IH (acc ++ [s])) as (f2 & Hl). exists (S (f1 + f2)).
    cbn [parse_loop]. rewrite bind_atEnd, Hp. cbv beta iota delta [negb].
    rewrite (bind_ok _ _ _ _ _
               (statement_more_fuel tokens f1 (f1 + f2) _ _ _
                  (Nat.le_add_r _ _) Hs)).
    rewrite (parse_loop_more_fuel tokens f2 (f1 + f2) _ _ _ _
               (Nat.le_add_l _ _) Hl).
    now rewrite <- app_assoc.
Qed.

Lemma blockStmt_loop_runs (tokens : list Token) (p r : nat) (l : list Stmt) :
  statements_from tokens (checkb tokens TokenType.RightBrace) p l r ->
  forall acc, exists f, blockStmt_loop tokens f acc p = (Ok (acc ++ l), r).
Proof.
  induction 1 as [p Hp|p q r s l Hp (f1 & Hs) _ IH]; intros acc.
  - exists 1. cbn [blockStmt_loop]. rewrite bind_check, any_of_one, Hp.
    simpl. now rewrite app_nil_r.
  - destruct (IH (acc ++ [s])) as (f2 & Hl). exists (S (f1 + f2)).
    cbn [blockStmt_loop]. rewrite bind_check, any_of_one, Hp.
    cbv beta iota delta [negb].
    rewrite (bind_ok _ _ _ _ _
               (statement_more_fuel tokens f1 (f1 + f2) _ _ _
                  (Nat.le_add_r _ _) Hs)).
    rewrite (blockStmt_loop_more_fuel tokens f2 (f1 + f2) _ _ _ _
               (Nat.le_add_l _ _) Hl).
    now rewrite <- app_assoc.
Qed.

Lemma unary_more_fuel (tokens : list Token) (f f' p q : nat) (e : Expr) :
  f <= f' -> unary tokens f p = (Ok e, q) -> unary tokens f' p = (Ok e, q).
Proof.
  intros Hle H.
  apply (stable_result _ _ _ _
           (proj1 (proj2 (proj2 (proj2 (proj2 (proj2
              (fuel_stable tokens f f' Hle))))))) H).
  discriminate.
Qed.

(** ** The further properties *)

(** X1: [parse] terminates on every token sequence: it does not run out of
    the fuel [enough_fuel], and every larger amount of fuel gives the same
    outcome and the same cursor. *)
Theorem X1_parse_terminates (tokens : list Token) :
  parse tokens <> OutOfFuel /\
  forall f, enough_fuel tokens <= f ->
            parse_run tokens f = parse_run tokens (enough_fuel tokens).
Proof. split; [apply parse_terminates|apply parse_fuel_enough]. Qed.

Lemma X1_parse_terminates_witness :
  parse [tok TokenType.LeftBrace "{"; tok TokenType.Eof ""] <> OutOfFuel /\
  parse_run [tok TokenType.LeftBrace "{"; tok TokenType.Eof ""] 100
  = parse_run [tok TokenType.LeftBrace "{"; tok TokenType.Eof ""]
      (enough_fuel [tok TokenType.LeftBrace "{"; tok TokenType.Eof ""]).
Proof.
  split.
  - apply X1_parse_terminates.
  - apply X1_parse_terminates. unfold enough_fuel. simpl. lia.
Defined.

(** X2: on a token sequence that holds an [Eof] token, [parse] returns
    statements or throws; it never reads outside the vector. *)
Theorem X2_eof_keeps_in_range (tokens : list Token) :
  In TokenType.Eof (map type tokens) ->
  (exists l, parse tokens = Ok l) \/ (exists msg, parse tokens = Throw msg).
Proof.
  intros H. pose proof (parse_in_range tokens H) as R.
  pose proof (parse_terminates tokens) as T.
  destruct (parse tokens) as [l|msg| |]; eauto; contradiction.
Qed.

Lemma X2_eof_keeps_in_range_witness :
  (exists l, parse [tok TokenType.Print "print"; tok TokenType.Eof ""] = Ok l)
  \/ (exists msg,
        parse [tok TokenType.Print "print"; tok TokenType.Eof ""] = Throw msg).
Proof.
  apply X2_eof_keeps_in_range. simpl. tauto.
Defined.

(** X3: when [parse] returns, it has read every token before the first
    [Eof] (all of them when there is none): the cursor is at the end of that
    part, and braces and parentheses are matched in it. *)
Theorem X3_success_reads_all (tokens : list Token) (l : list Stmt) :
  parse tokens = Ok l ->
  snd (parse_run tokens (enough_fuel tokens))
    = List.length (before_eof tokens) /\
  neutral (before_eof tokens).
Proof.
  unfold parse. intros H.
  destruct (parse_run tokens (enough_fuel tokens)) as [o q] eqn:E.
  simpl in H. subst o. exact (parse_run_ok tokens l q E).
Qed.

Lemma X3_success_reads_all_witness :
  snd (parse_run
         [tok TokenType.LeftBrace "{"; tok TokenType.RightBrace "}";
          tok TokenType.Eof ""; tok TokenType.LeftBrace "{"]
         (enough_fuel
            [tok TokenType.LeftBrace "{"; tok TokenType.RightBrace "}";
             tok TokenType.Eof ""; tok TokenType.LeftBrace "{"]))
    = List.length
        (before_eof
           [tok TokenType.LeftBrace "{"; tok TokenType.RightBrace "}";
            tok TokenType.Eof ""; tok TokenType.LeftBrace "{"]) /\
  neutral
    (before_eof
       [tok TokenType.LeftBrace "{"; tok TokenType.RightBrace "}";
        tok TokenType.Eof ""; tok TokenType.LeftBrace "{"]).
Proof.
  apply (X3_success_reads_all _ [BlockStmt []]). reflexivity.
Defined.

(** X4: a token of a kind that no procedure of the parser matches, other
    than [Eof], makes [parse] throw when it comes before any [Eof]: comma,
    dot, [!], [=], identifiers and every keyword but [print], [if], [else],
    [true] and [false]. *)
Theorem X4_unsupported_token_throws (pre : list Token) (t : Token)
    (post : list Token) :
  consumable (type t) = false ->
  type t <> TokenType.Eof ->
  Forall (fun x => type x <> TokenType.Eof) pre ->
  exists msg, parse (pre ++ t :: post) = Throw msg.
Proof.
  intros Hc Ht Hpre. pose proof (parse_stopped pre t post Hpre Hc) as P.
  destruct (parse (pre ++ t :: post)) as [l|msg| |];
    [|now exists msg|contradiction|contradiction].
  destruct P as [He _]. contradiction.
Qed.

Lemma X4_unsupported_token_throws_witness :
  exists msg,
    parse ([tok TokenType.Print "print"]
             ++ tok TokenType.Bang "!"
             :: [tok TokenType.True "true"; tok TokenType.Semicolon ";";
                 tok TokenType.Eof ""])
    = Throw msg.
Proof.
  apply X4_unsupported_token_throws.
  - reflexivity.
  - discriminate.
  - repeat constructor. discriminate.
Defined.

(** X5: what follows an [Eof] token has no influence: two token sequences
    that are the same up to an [Eof] token give the same outcome of
    [parse]. *)
Theorem X5_after_eof_ignored (a : list Token) (e : Token) (b b' : list Token) :
  type e = TokenType.Eof ->
  parse (a ++ e :: b) = parse (a ++ e :: b').
Proof.
  intros He.
  set (F := enough_fuel (a ++ e :: b) + enough_fuel (a ++ e :: b')).
  rewrite <- (parse_any_fuel (a ++ e :: b) F) by (unfold F; lia).
  rewrite <- (parse_any_fuel (a ++ e :: b') F) by (unfold F; lia).
  unfold parse_run.
  assert (Hsame : forall i, i <= List.length a ->
            nth_error (a ++ e :: b) i = nth_error (a ++ e :: b') i).
  { intros i Hi. destruct (Nat.eq_dec i (List.length a)) as [->|].
    - now rewrite !nth_error_middle.
    - now rewrite !nth_error_app1 by lia. }
  assert (Hend : atEndb (a ++ e :: b') (List.length a) = true).
  { unfold atEndb. rewrite nth_error_middle, He. reflexivity. }
  destruct (agree_parse_loop (a ++ e :: b') (a ++ e :: b) (List.length a)
              Hsame Hend F [] initial_current) as [E _];
    [unfold initial_current; lia|].
  now rewrite E.
Qed.

Lemma X5_after_eof_ignored_witness :
  parse ([number "1" 1; tok TokenType.Semicolon ";"]
           ++ tok TokenType.Eof "" :: [tok TokenType.LeftBrace "{"])
  = parse ([number "1" 1; tok TokenType.Semicolon ";"]
             ++ tok TokenType.Eof "" :: []).
Proof. apply X5_after_eof_ignored. reflexivity. Defined.

(** X6: no procedure of the grammar moves the cursor back: with every token
    sequence, fuel and start, the cursor that a procedure leaves, whether it
    returns or throws, is at or after the start; and so for the loop of
    [parse]. *)
Theorem X6_no_backtracking (tokens : list Token) (f : nat) :
  all_related (fun A m _ => mono m) tokens f tokens f /\
  forall acc, mono (parse_loop tokens f acc).
Proof. split; [apply all_mono|apply mono_parse_loop]. Qed.

(** X7: [parse] returns the statements in the order of the tokens: when
    [statement] returns [s1], ..., [sn] one after the other from the first
    token and the cursor is then at the end, [parse] returns exactly
    [s1; ...; sn] and leaves the cursor there; in particular nothing is
    returned for a sequence that is empty or starts with [Eof]. *)
Theorem X7_parse_in_order (tokens : list Token) (l : list Stmt) (r : nat) :
  statements_from tokens (atEndb tokens) initial_current l r ->
  parse_run tokens (enough_fuel tokens) = (Ok l, r).
Proof.
  intros H. destruct (parse_loop_runs tokens _ _ _ H []) as (f & Hf).
  apply (parse_run_some_fuel tokens f); [exact Hf|discriminate].
Qed.

Lemma X7_parse_in_order_witness :
  parse_run
    [tok TokenType.Print "print"; number "1" 1; tok TokenType.Semicolon ";";
     number "2" 2; tok TokenType.Semicolon ";"; tok TokenType.Eof ""]
    (enough_fuel
       [tok TokenType.Print "print"; number "1" 1;
        tok TokenType.Semicolon ";";
        number "2" 2; tok TokenType.Semicolon ";"; tok TokenType.Eof ""])
  = (Ok [PrintStmt (LiteralExpr (any_number 1));
         ExpressionStmt (LiteralExpr (any_number 2))], 5).
Proof.
  apply X7_parse_in_order.
  apply (sf_next _ _ 0 3 5); [reflexivity|exists 20; reflexivity|].
  apply (sf_next _ _ 3 5 5); [reflexivity|exists 20; reflexivity|].
  apply sf_stop. reflexivity.
Defined.

(** X8: a block holds its statements in the order of the tokens: after an
    opening brace, when [statement] returns [s1], ..., [sn] one after the
    other and the cursor is then on a closing brace, [statement] at the
    opening brace returns [BlockStmt [s1; ...; sn]] and leaves the cursor
    after the closing brace. *)
Theorem X8_block_in_order (tokens : list Token) (p r : nat) (l : list Stmt) :
  checkb tokens TokenType.LeftBrace p = true ->
  statements_from tokens (checkb tokens TokenType.RightBrace) (S p) l r ->
  returns (statement tokens) p (BlockStmt l) (S r).
Proof.
  intros Hlb H. pose proof (statements_from_stop _ _ _ _ _ H) as Hrb.
  destruct (blockStmt_loop_runs tokens _ _ _ H []) as (f & Hf).
  exists (S (S f)). cbn [statement blockStmt].
  rewrite bind_match_, (checkb_other tokens _ TokenType.Print _ Hlb)
    by discriminate.
  rewrite bind_match_, (checkb_other tokens _ TokenType.If _ Hlb)
    by discriminate.
  rewrite bind_match_, any_of_one, Hlb.
  rewrite (bind_ok _ _ _ _ _ Hf).
  rewrite bind_consume, any_of_one, Hrb. reflexivity.
Qed.

Lemma X8_block_in_order_witness :
  returns
    (statement
       [tok TokenType.LeftBrace "{";
        tok TokenType.Print "print"; number "1" 1; tok TokenType.Semicolon ";";
        tok TokenType.Print "print"; number "2" 2; tok TokenType.Semicolon ";";
        tok TokenType.RightBrace "}"; tok TokenType.Eof ""])
    0
    (BlockStmt [PrintStmt (LiteralExpr (any_number 1));
                PrintStmt (LiteralExpr (any_number 2))])
    8.
Proof.
  apply X8_block_in_order; [reflexivity|].
  apply (sf_next _ _ 1 4 7); [reflexivity|exists 20; reflexivity|].
  apply (sf_next _ _ 4 7 7); [reflexivity|exists 20; reflexivity|].
  apply sf_stop. reflexivity.
Defined.

(** X9: a print statement: after [print], when [expr] returns [e] and leaves
    the cursor at [q], [statement] returns [PrintStmt e] past the [;] at
    [q]; without a [;] there it throws "Expect ';' after value.'" and leaves
    the cursor at [q]. *)
Theorem X9_print_statement (tokens : list Token) (p q : nat) (e : Expr) :
  checkb tokens TokenType.Print p = true ->
  returns (expr tokens) (S p) e q ->
  (checkb tokens TokenType.Semicolon q = true ->
   returns (statement tokens) p (PrintStmt e) (S q)) /\
  (checkb tokens TokenType.Semicolon q = false ->
   exists f, statement tokens f p = (Throw "Expect ';' after value.'", q)).
Proof.
  intros Hp (f & He).
  split; intros Hs; exists (S (S f)); cbn [statement printStatement];
    rewrite bind_match_, any_of_one, Hp;
    rewrite (bind_ok _ _ _ _ _ He);
    rewrite bind_consume, any_of_one, Hs; reflexivity.
Qed.

Lemma X9_print_statement_witness :
  returns
    (statement [tok TokenType.Print "print"; number "1" 1;
                tok TokenType.Semicolon ";"; tok TokenType.Eof ""])
    0 (PrintStmt (LiteralExpr (any_number 1))) 3 /\
  exists f,
    statement [tok TokenType.Print "print"; number "1" 1;
               tok TokenType.Eof ""] f 0
    = (Throw "Expect ';' after value.'", 2).
Proof.
  split.
  - apply (proj1 (X9_print_statement
                    [tok TokenType.Print "print"; number "1" 1;
                     tok TokenType.Semicolon ";"; tok TokenType.Eof ""]
                    0 2 (LiteralExpr (any_number 1)) eq_refl
                    (ex_intro _ 20 eq_refl))).
    reflexivity.
  - apply (proj2 (X9_print_statement
                    [tok TokenType.Print "print"; number "1" 1;
                     tok TokenType.Eof ""]
                    0 2 (LiteralExpr (any_number 1)) eq_refl
                    (ex_intro _ 20 eq_refl))).
    reflexivity.
Defined.

(** X10: parentheses leave no node: after [(], when [expr] returns [e] and
    leaves the cursor at [q], [unary] returns the same [e] past the [)] at
    [q]; without a [)] there it throws "Expected ')'" and leaves the cursor
    at [q]. *)
Theorem X10_grouping (tokens : list Token) (p q : nat) (e : Expr) :
  checkb tokens TokenType.LeftParen p = true ->
  returns (expr tokens) (S p) e q ->
  (checkb tokens TokenType.RightParen q = true ->
   returns (unary tokens) p e (S q)) /\
  (checkb tokens TokenType.RightParen q = false ->
   exists f, unary tokens f p = (Throw "Expected ')'", q)).
Proof.
  intros Hp (f & He).
  assert (Hops : any_of tokens [TokenType.Plus; TokenType.Minus] p = false).
  { unfold any_of. simpl.
    pose proof (checkb_other tokens _ TokenType.Plus _ Hp) as H1.
    pose proof (checkb_other tokens _ TokenType.Minus _ Hp) as H2.
    rewrite any_of_one in H1, H2. rewrite H1, H2 by discriminate.
    reflexivity. }
  split; intros Hs; exists (S f); cbn [unary];
    rewrite bind_orelse2, Hops; cbv beta iota;
    rewrite bind_match_, any_of_one, Hp;
    rewrite (bind_ok _ _ _ _ _ He);
    rewrite bind_consume, any_of_one, Hs; reflexivity.
Qed.

Lemma X10_grouping_witness :
  returns
    (unary [tok TokenType.LeftParen "("; number "1" 1; tok TokenType.Plus "+";
            number "2" 2; tok TokenType.RightParen ")";
            tok TokenType.Star "*"; number "3" 3;
            tok TokenType.Semicolon ";"; tok TokenType.Eof ""])
    0
    (BinaryExpr (LiteralExpr (any_number 1)) (tok TokenType.Plus "+")
       (LiteralExpr (any_number 2)))
    5 /\
  exists f,
    unary [tok TokenType.LeftParen "("; number "1" 1;
           tok TokenType.Semicolon ";"; tok TokenType.Eof ""] f 0
    = (Throw "Expected ')'", 2).
Proof.
  split.
  - apply (proj1 (X10_grouping
                    [tok TokenType.LeftParen "("; number "1" 1;
                     tok TokenType.Plus "+"; number "2" 2;
                     tok TokenType.RightParen ")";
                     tok TokenType.Star "*"; number "3" 3;
                     tok TokenType.Semicolon ";"; tok TokenType.Eof ""]
                    0 4 _ eq_refl (ex_intro _ 20 eq_refl))).
    reflexivity.
  - apply (proj2 (X10_grouping
                    [tok TokenType.LeftParen "("; number "1" 1;
                     tok TokenType.Semicolon ";"; tok TokenType.Eof ""]
                    0 2 (LiteralExpr (any_number 1)) eq_refl
                    (ex_intro _ 20 eq_refl))).
    reflexivity.
Defined.

(** X11: an [Eof] token cannot be matched: in every state [check(Eof)] and
    [match(Eof)] return false and leave the cursor, and [consume(Eof, err)]
    throws [err], also when the cursor is on an [Eof] token. *)
Theorem X11_eof_never_matched (tokens : list Token) (cur : nat) (err : string) :
  check tokens TokenType.Eof cur = (Ok false, cur) /\
  match_ tokens TokenType.Eof cur = (Ok false, cur) /\
  consume tokens TokenType.Eof err cur = (Throw err, cur).
Proof.
  assert (H : checkb tokens TokenType.Eof cur = false).
  { unfold checkb. destruct (nth_error tokens cur) as [t|]; [|reflexivity].
    destruct (TokenType.eqb (type t) TokenType.Eof); reflexivity. }
  rewrite check_eq, match__eq, consume_eq, H. auto.
Qed.

(** X12: with the cursor at the first position and already at the end (the
    vector is empty or starts with [Eof]), [advance] does not move and
    reads [tokens[current - 1]] outside the vector, while [match], which
    asks [check] first, returns false for every kind. *)
Theorem X12_advance_at_start (tokens : list Token) :
  atEndb tokens 0 = true ->
  advance tokens 0 = (OutOfRange, 0) /\
  forall k, match_ tokens k 0 = (Ok false, 0).
Proof.
  intros H. split.
  - unfold advance, bind. now rewrite atEnd_eq, H.
  - intros k. now rewrite match__eq, (checkb_at_atEnd tokens k 0 H).
Qed.

Lemma X12_advance_at_start_witness :
  advance [tok TokenType.Eof ""] 0 = (OutOfRange, 0) /\
  forall k, match_ [tok TokenType.Eof ""] k 0 = (Ok false, 0).
Proof. apply X12_advance_at_start. reflexivity. Defined.

(** X13: a binary operator that follows one of the same or of a higher
    precedence level takes everything before it as its left operand:
    [x op1 y op2 z ;] parses to [Binary(Binary(x, op1, y), op2, z)] when the
    level of [op2] is at most that of [op1]. *)
Theorem X13_lower_level_nests_left (op1 op2 : Token) (n1 n2 : nat)
    (lx ly lz : string) (x y z : any) :
  binary_level (type op1) = Some n1 ->
  binary_level (type op2) = Some n2 ->
  n2 <= n1 ->
  parse [mkToken TokenType.Number lx x; op1;
         mkToken TokenType.Number ly y; op2;
         mkToken TokenType.Number lz z;
         tok TokenType.Semicolon ";"; tok TokenType.Eof ""]
  = Ok [ExpressionStmt
          (BinaryExpr
             (BinaryExpr (LiteralExpr x) op1 (LiteralExpr y))
             op2 (LiteralExpr z))].
Proof.
  destruct op1 as [k1 l1 v1], op2 as [k2 l2 v2]. intros H1 H2 Hle.
  destruct k1; simpl in H1; try discriminate H1;
    injection H1 as <-;
    destruct k2; simpl in H2; try discriminate H2;
    injection H2 as <-; try lia; reflexivity.
Qed.

Lemma X13_lower_level_nests_left_witness :
  parse [mkToken TokenType.Number "2" (any_number 2); tok TokenType.Star "*";
         mkToken TokenType.Number "3" (any_number 3);
         tok TokenType.EqualEqual "==";
         mkToken TokenType.Number "6" (any_number 6);
         tok TokenType.Semicolon ";"; tok TokenType.Eof ""]
  = Ok [ExpressionStmt
          (BinaryExpr
             (BinaryExpr (LiteralExpr (any_number 2)) (tok TokenType.Star "*")
                (LiteralExpr (any_number 3)))
             (tok TokenType.EqualEqual "==") (LiteralExpr (any_number 6)))].
Proof.
  apply (X13_lower_level_nests_left _ _ 4 1); [reflexivity|reflexivity|lia].
Defined.

(** X14: a literal token as an expression statement: [true] and [false]
    give the boolean whatever the token's [literal] holds, a number or a
    string gives the token's [literal] unchanged. *)
Theorem X14_literal_statement (t : Token) (v : any) (lex1 lex2 : string)
    (v1 v2 : any) :
  literal_value t = Some v ->
  parse [t; mkToken TokenType.Semicolon lex1 v1; mkToken TokenType.Eof lex2 v2]
  = Ok [ExpressionStmt (LiteralExpr v)].
Proof.
  destruct t as [k lx lit]. unfold literal_value. simpl.
  destruct k; intros H; try discriminate H; injection H as <-; reflexivity.
Qed.

Lemma X14_literal_statement_witness :
  parse [mkToken TokenType.True "true" (any_string "ignored");
         mkToken TokenType.Semicolon ";" any_nullptr;
         mkToken TokenType.Eof "" any_nullptr]
  = Ok [ExpressionStmt (LiteralExpr (any_bool true))].
Proof. apply X14_literal_statement. reflexivity. Defined.

(** X15: an else-if chain needs no rule of its own: [if c1 s1 else if c2 s2
    else s3] gives [IfStmt c1 s1 (IfStmt c2 s2 s3)], the second [IfStmt]
    being the else branch of the first. *)
Theorem X15_else_if_chain (tokens : list Token) (p p1 p2 p3 p4 p5 : nat)
    (c1 c2 : Expr) (s1 s2 s3 : Stmt) :
  checkb tokens TokenType.If p = true ->
  returns (expr tokens) (S p) c1 p1 ->
  returns (statement tokens) p1 s1 p2 ->
  checkb tokens TokenType.Else p2 = true ->
  checkb tokens TokenType.If (S p2) = true ->
  returns (expr tokens) (S (S p2)) c2 p3 ->
  returns (statement tokens) p3 s2 p4 ->
  checkb tokens TokenType.Else p4 = true ->
  returns (statement tokens) (S p4) s3 p5 ->
  returns (statement tokens) p
    (IfStmt c1 s1 (Some (IfStmt c2 s2 (Some s3)))) p5.
Proof.
  intros Hif (f1 & E1) (f2 & E2) Helse Hif2 (f3 & E3) (f4 & E4) Helse2
    (f5 & E5).
  set (F := f1 + f2 + f3 + f4 + f5).
  apply (expr_more_fuel tokens f1 (S (S F))) in E1; [|lia].
  apply (statement_more_fuel tokens f2 (S (S F))) in E2; [|lia].
  apply (expr_more_fuel tokens f3 F) in E3; [|lia].
  apply (statement_more_fuel tokens f4 F) in E4; [|lia].
  apply (statement_more_fuel tokens f5 F) in E5; [|lia].
  assert (Hinner : statement tokens (S (S F)) (S p2)
                   = (Ok (IfStmt c2 s2 (Some s3)), p5)).
  { cbn [statement IfStatement].
    rewrite bind_match_, (checkb_other tokens _ TokenType.Print _ Hif2)
      by discriminate.
    rewrite bind_match_, any_of_one, Hif2.
    rewrite (bind_ok _ _ _ _ _ E3), (bind_ok _ _ _ _ _ E4).
    rewrite bind_match_, any_of_one, Helse2.
    now rewrite (bind_ok _ _ _ _ _ E5). }
  exists (S (S (S (S F)))).
  cbn [statement IfStatement].
  rewrite bind_match_, (checkb_other tokens _ TokenType.Print _ Hif)
    by discriminate.
  rewrite bind_match_, any_of_one, Hif.
  rewrite (bind_ok _ _ _ _ _ E1), (bind_ok _ _ _ _ _ E2).
  rewrite bind_match_, any_of_one, Helse.
  now rewrite (bind_ok _ _ _ _ _ Hinner).
Qed.

Lemma X15_else_if_chain_witness :
  returns
    (statement
       [tok TokenType.If "if"; tok TokenType.True "true";
        tok TokenType.Print "print"; number "1" 1; tok TokenType.Semicolon ";";
        tok TokenType.Else "else"; tok TokenType.If "if";
        tok TokenType.False "false";
        tok TokenType.Print "print"; number "2" 2; tok TokenType.Semicolon ";";
        tok TokenType.Else "else";
        tok TokenType.Print "print"; number "3" 3; tok TokenType.Semicolon ";";
        tok TokenType.Eof ""])
    0
    (IfStmt (LiteralExpr (any_bool true))
       (PrintStmt (LiteralExpr (any_number 1)))
       (Some (IfStmt (LiteralExpr (any_bool false))
                (PrintStmt (LiteralExpr (any_number 2)))
                (Some (PrintStmt (LiteralExpr (any_number 3)))))))
    15.
Proof.
  apply (X15_else_if_chain _ 0 2 5 8 11 15).
  - reflexivity.
  - exists 20. reflexivity.
  - exists 20. reflexivity.
  - reflexivity.
  - reflexivity.
  - exists 20. reflexivity.
  - exists 20. reflexivity.
  - reflexivity.
  - exists 20. reflexivity.
Defined.

Lemma checkb_wrong_kind (tokens : list Token) (k : TokenType.t) (p : nat)
    (t : Token) :
  nth_error tokens p = Some t -> type t <> k -> checkb tokens k p = false.
Proof.
  intros Ht Hk. unfold checkb. rewrite Ht.
  apply TokenType_eqb_neq in Hk. rewrite Hk. apply andb_false_r.
Qed.

Lemma bind_throw {A B} (m : M A) (k : A -> M B) (p q : nat) (w : string) :
  m p = (Throw w, q) -> bind m k p = (Throw w, q).
Proof. intros H. unfold bind. now rewrite H. Qed.

Lemma any_of_none (tokens : list Token) (ks : list TokenType.t) (p : nat) :
  (forall k, In k ks -> checkb tokens k p = false) ->
  any_of tokens ks p = false.
Proof.
  intros H. unfold any_of. induction ks as [|k ks IH]; [reflexivity|].
  simpl. rewrite (H k (or_introl eq_refl)). simpl.
  apply IH. intros k' Hk'. apply H. now right.
Qed.

(** X16: where a statement is expected and the token at the cursor cannot
    start one (a [;], a closing bracket, a binary operator, [else], [Eof],
    any unsupported kind), [statement] throws "Parsing Error - Unexpected
    token: " followed by the lexeme of that token, and the cursor stays on
    it. *)
Theorem X16_unexpected_token (tokens : list Token) (p : nat) (t : Token) :
  nth_error tokens p = Some t ->
  starts_statement (type t) = false ->
  exists f,
    statement tokens f p
    = (Throw ("Parsing Error - Unexpected token: " ++ lexeme t)%string, p).
Proof.
  intros Ht Hk.
  assert (H : forall ks, forallb starts_statement ks = true ->
                         any_of tokens ks p = false).
  { intros ks Hks. apply any_of_none. intros k Hin.
    apply (checkb_wrong_kind tokens k p t Ht). intros E.
    rewrite forallb_forall in Hks. specialize (Hks k Hin).
    rewrite <- E in Hks. congruence. }
  set (w := ("Parsing Error - Unexpected token: " ++ lexeme t)%string).
  assert (P : primary tokens 1 p = (Throw w, p)).
  { cbn [primary].
    rewrite bind_match_, H by reflexivity. cbv beta iota.
    rewrite bind_match_, H by reflexivity. cbv beta iota.
    rewrite bind_orelse2, H by reflexivity. cbv beta iota.
    rewrite bind_match_, H by reflexivity. cbv beta iota.
    unfold bind, throw. rewrite peek_eq, Ht. reflexivity. }
  assert (U : unary tokens 2 p = (Throw w, p)).
  { cbn [unary].
    rewrite bind_orelse2, H by reflexivity. cbv beta iota.
    rewrite bind_match_, H by reflexivity. cbv beta iota. exact P. }
  exists 9.
  cbn [statement].
  rewrite bind_match_, H by reflexivity. cbv beta iota.
  rewrite bind_match_, H by reflexivity. cbv beta iota.
  rewrite bind_match_, H by reflexivity. cbv beta iota.
  cbn [expressionStatement expr equality comparison term factor].
  repeat first [exact U | apply bind_throw].
Qed.

Lemma X16_unexpected_token_witness :
  exists f,
    statement [tok TokenType.Semicolon ";"; tok TokenType.Eof ""] f 0
    = (Throw ("Parsing Error - Unexpected token: "
                ++ lexeme (tok TokenType.Semicolon ";"))%string, 0).
Proof. apply X16_unexpected_token; reflexivity. Defined.

(** X17: a prefix [+] or [-] keeps its token and binds to the unary
    expression that follows: when [unary] returns [e] after the operator
    token [op], [unary] at the operator returns [UnaryExpr op e]; so
    [- - e] nests to the right. *)
Theorem X17_prefix_operator (tokens : list Token) (p q : nat) (op : Token)
    (e : Expr) :
  nth_error tokens p = Some op ->
  type op = TokenType.Plus \/ type op = TokenType.Minus ->
  returns (unary tokens) (S p) e q ->
  returns (unary tokens) p (UnaryExpr op e) q.
Proof.
  intros Ht Hk (f & He). exists (S f). cbn [unary].
  assert (Hm : any_of tokens [TokenType.Plus; TokenType.Minus] p = true).
  { unfold any_of, checkb. simpl. rewrite Ht.
    destruct Hk as [-> | ->]; reflexivity. }
  rewrite bind_orelse2, Hm. cbv beta iota.
  unfold bind at 1. rewrite previous_S, Ht.
  now rewrite (bind_ok _ _ _ _ _ He).
Qed.

Lemma X17_prefix_operator_witness :
  returns
    (unary [tok TokenType.Minus "-"; tok TokenType.Minus "-"; number "1" 1;
            tok TokenType.Semicolon ";"; tok TokenType.Eof ""])
    0
    (UnaryExpr (tok TokenType.Minus "-")
       (UnaryExpr (tok TokenType.Minus "-") (LiteralExpr (any_number 1))))
    3.
Proof.
  apply X17_prefix_operator.
  - reflexivity.
  - right. reflexivity.
  - exists 20. reflexivity.
Defined.
